(** * libcsp Simple Fragmentation Protocol (SFP)

    A shallow embedding of [src/csp_sfp.c]: the trailer codec
    ([csp_sfp_header_add], [csp_sfp_header_remove]), the chunking loop of
    [csp_sfp_send] and the reassembly loop of [csp_sfp_recv_fp], followed by
    the properties of the protocol proved on that embedding.

    Integers are [Z] with the C wrap-around written out, packet memory is a
    [list byte], and the connection, the buffer pool and the user's storage
    are threaded through the functions as explicit state. *)

From Stdlib Require Import ZArith List Lia Bool.
From coqutil Require Import Byte Word.LittleEndianList.
Import ListNotations.
Local Open Scope Z_scope.

(** ** Fixed-width unsigned integers *)

Definition uint8_t (z : Z) : Z := z mod 2 ^ 8.
Definition uint16_t (z : Z) : Z := z mod 2 ^ 16.
Definition uint32_t (z : Z) : Z := z mod 2 ^ 32.

(** ** Error codes used by the protocol (csp_error.h) *)

Inductive csp_err : Set :=
| CSP_ERR_NONE
| CSP_ERR_NOMEM
| CSP_ERR_INVAL
| CSP_ERR_TIMEDOUT
| CSP_ERR_SFP.

(** ** Packets, trailers, connections *)

(** The fields of [csp_packet_t] the protocol touches: [length], [id.flags]
    and the [data] array. *)
Record csp_packet_t : Type := mk_packet {
  pkt_length : Z;
  pkt_id_flags : Z;
  pkt_data : list byte
}.

Definition set_length (p : csp_packet_t) (n : Z) : csp_packet_t :=
  mk_packet n (pkt_id_flags p) (pkt_data p).

Definition set_data (p : csp_packet_t) (d : list byte) : csp_packet_t :=
  mk_packet (pkt_length p) (pkt_id_flags p) d.

Definition set_id_flags (p : csp_packet_t) (f : Z) : csp_packet_t :=
  mk_packet (pkt_length p) f (pkt_data p).

(** [sfp_header_t]: two packed 32-bit fields. *)
Record sfp_header_t : Set := mk_header {
  offset : Z;
  totalsize : Z
}.

Definition sizeof_sfp_header_t : Z := 8.

(** A connection: the outgoing identifier's flags, the packets handed to
    [csp_send] (oldest first) and the packets [csp_read] will deliver. *)
Record csp_conn_t : Type := mk_conn {
  idout_flags : Z;
  tx : list csp_packet_t;
  rx : list csp_packet_t
}.

(** The state both engines run in: the connection, the number of calls
    made to [csp_buffer_get], the packets handed to [csp_buffer_free]
    (oldest first), and the state behind the user's [data] pointer. *)
Record world (U : Type) : Type := mk_world {
  conn : csp_conn_t;
  buffer_gets : nat;
  buffer_frees : list csp_packet_t;
  user : U
}.
Arguments mk_world {U}.
Arguments conn {U}.
Arguments buffer_gets {U}.
Arguments buffer_frees {U}.
Arguments user {U}.

Definition set_user {U} (w : world U) (u : U) : world U :=
  mk_world (conn w) (buffer_gets w) (buffer_frees w) u.

Definition set_conn {U} (w : world U) (c : csp_conn_t) : world U :=
  mk_world c (buffer_gets w) (buffer_frees w) (user w).

(** ** Packet memory *)

(** The [n] bytes at [&data[pos]]. *)
Definition load (pos : Z) (n : nat) (data : list byte) : list byte :=
  firstn n (skipn (Z.to_nat pos) data).

(** Writing [bs] at [&data[pos]].  A write that does not fit the array is
    undefined in C; here it leaves the array as it is. *)
Definition store (pos : Z) (bs : list byte) (data : list byte) : list byte :=
  if (0 <=? pos) && (pos + Z.of_nat (length bs) <=? Z.of_nat (length data))
  then firstn (Z.to_nat pos) data ++ bs ++
       skipn (Z.to_nat pos + length bs) data
  else data.

(** Big-endian (network order) bytes of a 32-bit value, and back. *)
Definition be32_bytes (v : Z) : list byte := rev (le_split 4 v).
Definition be32_value (bs : list byte) : Z := le_combine (rev bs).

Section SFP.

(** Configuration constants of the library that are not defined in the two
    source files: the capacity of [csp_packet_t.data] and the fragment bit
    of [csp_id_t.flags].  The code subtracts the trailer size from the
    capacity in [size_t]; the properties below that depend on it assume a
    capacity that holds a trailer ([sizeof_sfp_header_t <= CSP_BUFFER_SIZE]),
    for which the difference is the same in [Z]. *)
Variable CSP_BUFFER_SIZE : Z.
Variable CSP_FFRAG : Z.

(** Byte order of the machine the code runs on. *)
Variable host_big_endian : bool.

(** A [uint32_t] object in memory, in host order. *)
Definition host32_bytes (v : Z) : list byte :=
  if host_big_endian then rev (le_split 4 v) else le_split 4 v.
Definition host32_value (bs : list byte) : Z :=
  if host_big_endian then le_combine (rev bs) else le_combine bs.

Definition bswap32 (v : Z) : Z := le_combine (rev (le_split 4 v)).
Definition htobe32 (v : Z) : Z := if host_big_endian then v else bswap32 v.
Definition be32toh (v : Z) : Z := if host_big_endian then v else bswap32 v.

(** Field accesses through a [sfp_header_t *] that points at [&data[pos]]:
    [offset] is at byte 0 and [totalsize] at byte 4 of the packed struct. *)
Definition header_get_offset (pos : Z) (data : list byte) : Z :=
  host32_value (load pos 4 data).
Definition header_get_totalsize (pos : Z) (data : list byte) : Z :=
  host32_value (load (pos + 4) 4 data).
Definition header_set_offset (pos v : Z) (data : list byte) : list byte :=
  store pos (host32_bytes v) data.
Definition header_set_totalsize (pos v : Z) (data : list byte) : list byte :=
  store (pos + 4) (host32_bytes v) data.

(** ** The trailer codec *)

(** Returns the packet with its length advanced and the position of the
    trailer inside [data] (the pointer the C function returns). *)
Definition csp_sfp_header_add (packet : csp_packet_t) : csp_packet_t * Z :=
  let header := pkt_length packet in
  (set_length packet (uint16_t (pkt_length packet + sizeof_sfp_header_t)),
   header).

(** Returns the packet as the call leaves it and the decoded trailer, [None]
    standing for the NULL pointer. *)
Definition csp_sfp_header_remove (packet : csp_packet_t)
  : csp_packet_t * option sfp_header_t :=
  if Z.land (pkt_id_flags packet) CSP_FFRAG =? 0 then (packet, None)
  else if pkt_length packet <? sizeof_sfp_header_t then (packet, None)
  else
    let header := pkt_length packet - sizeof_sfp_header_t in
    let packet := set_length packet (pkt_length packet - sizeof_sfp_header_t) in
    let packet :=
      set_data packet
        (header_set_offset header
           (be32toh (header_get_offset header (pkt_data packet)))
           (pkt_data packet)) in
    let packet :=
      set_data packet
        (header_set_totalsize header
           (be32toh (header_get_totalsize header (pkt_data packet)))
           (pkt_data packet)) in
    let h := mk_header (header_get_offset header (pkt_data packet))
                       (header_get_totalsize header (pkt_data packet)) in
    if offset h >? totalsize h then (packet, None) else (packet, Some h).

(** ** The buffer pool and the channel *)

(** Modelled from the spec: [csp_buffer_get], [csp_buffer_free], [csp_send]
    and [csp_read] are external collaborators (csp_buffer.c, csp_io.c).
    The [n]-th call of [csp_buffer_get] returns what the pool oracle says:
    NULL, or a buffer with whatever a previous use left in it.
    [csp_buffer_free] puts the packet it is given, as it is at that moment,
    on the record of freed packets.  [csp_send] stamps the packet with the
    connection's outgoing identifier and queues it; [csp_read] takes the
    oldest pending packet, and returns NULL (the timeout) when none is
    pending. *)
Variable pool : nat -> option csp_packet_t.

Definition csp_buffer_get {U} (w : world U) : option csp_packet_t * world U :=
  (pool (buffer_gets w),
   mk_world (conn w) (S (buffer_gets w)) (buffer_frees w) (user w)).

Definition csp_buffer_free {U} (w : world U) (packet : csp_packet_t) : world U :=
  mk_world (conn w) (buffer_gets w) (buffer_frees w ++ [packet]) (user w).

Definition csp_send {U} (w : world U) (packet : csp_packet_t) : world U :=
  let c := conn w in
  set_conn w (mk_conn (idout_flags c)
                      (tx c ++ [set_id_flags packet (idout_flags c)])
                      (rx c)).

Definition csp_read (pending : list csp_packet_t)
  : option csp_packet_t * list csp_packet_t :=
  match pending with
  | [] => (None, [])
  | packet :: rest => (Some packet, rest)
  end.

(** ** Sending *)

Section Send.

(** The user's [csp_sfp_read_t]: [read u buffer offset size] is the call
    [user->read(user->data, packet->data, offset, size)]; it returns the
    state behind [user->data], the buffer as the call leaves it and the
    [uint16_t] result. *)
Variable U : Type.
Variable read : U -> list byte -> Z -> Z -> U * list byte * Z.

(** The [while] loop of [csp_sfp_send], run for at most [fuel] iterations.
    The result is the value returned ([None] while the loop is still
    running when the fuel is spent), the local [count] and the state. *)
Fixpoint send_loop (fuel : nat) (totalsize mtu count : Z) (w : world U)
  {struct fuel} : option csp_err * Z * world U :=
  if count <? totalsize then
    match fuel with
    | O => (None, count, w)
    | S fuel' =>
      (* Allocate packet *)
      match csp_buffer_get w with
      | (None, w) => (Some CSP_ERR_NOMEM, count, w)
      | (Some packet, w) =>
        (* Calculate sending size *)
        let size := uint16_t (uint32_t (totalsize - count)) in
        let size := if size >? mtu then uint16_t mtu else size in
        (* Copy data *)
        let '(u, buffer, n) := read (user w) (pkt_data packet) count size in
        let w := set_user w u in
        let packet := set_data packet buffer in
        if negb (size =? n) then
          (Some CSP_ERR_SFP, count, csp_buffer_free w packet)
        else
          let packet := set_length packet size in
          (* Set fragment flag *)
          let c := conn w in
          let w := set_conn w
                     (mk_conn (uint8_t (Z.lor (idout_flags c) CSP_FFRAG))
                              (tx c) (rx c)) in
          (* Add SFP header *)
          let '(packet, sfp_header) := csp_sfp_header_add packet in
          let packet :=
            set_data packet
              (header_set_totalsize sfp_header (htobe32 totalsize)
                 (pkt_data packet)) in
          let packet :=
            set_data packet
              (header_set_offset sfp_header (htobe32 count)
                 (pkt_data packet)) in
          (* Send data *)
          let w := csp_send w packet in
          (* Increment count *)
          send_loop fuel' totalsize mtu (uint32_t (count + size)) w
      end
    end
  else (Some CSP_ERR_NONE, count, w).

Definition csp_sfp_send (fuel : nat) (w : world U) (totalsize mtu : Z)
  : option csp_err * Z * world U :=
  if (mtu =? 0) || (mtu >? CSP_BUFFER_SIZE - sizeof_sfp_header_t) then
    (Some CSP_ERR_INVAL, 0, w)
  else
    send_loop fuel totalsize mtu 0 w.

End Send.

(** ** Receiving *)

Section Recv.

(** The user's [csp_sfp_write_t]: [write u buffer offset size totalsize] is
    the call [user->write(user->data, packet->data, offset, size,
    totalsize)]; it returns the state behind [user->data] and the
    [uint16_t] result. *)
Variable W : Type.
Variable write : W -> list byte -> Z -> Z -> Z -> W * Z.

(** How one pass through the body of the [do ... while] loop ends. *)
Inductive flow : Set :=
| Goto_error (error : csp_err)
| Transfer_complete (datasize : Z)
| Next_packet (datasize data_offset : Z).

(** The body of the loop for one [packet], from the locals [datasize] and
    [data_offset]. *)
Definition recv_fragment (packet : csp_packet_t) (datasize data_offset : Z)
    (w : world W) : flow * world W :=
  (* Read SFP header *)
  let '(packet, sfp_header) := csp_sfp_header_remove packet in
  match sfp_header with
  | None => (Goto_error CSP_ERR_SFP, csp_buffer_free w packet)
  | Some sfp_header =>
    (* Consistency check *)
    if negb (offset sfp_header =? data_offset)
       || (pkt_length packet =? 0)
       || (pkt_length packet >? CSP_BUFFER_SIZE - sizeof_sfp_header_t)
    then (Goto_error CSP_ERR_SFP, csp_buffer_free w packet)
    else
      let copy (datasize : Z) : flow * world W :=
        (* Copy data to output *)
        let '(u, n) := write (user w) (pkt_data packet) data_offset
                         (pkt_length packet) (totalsize sfp_header) in
        let w := set_user w u in
        if negb (pkt_length packet =? n) then
          (Goto_error CSP_ERR_SFP, csp_buffer_free w packet)
        else
          let data_offset := uint32_t (data_offset + pkt_length packet) in
          if data_offset >=? datasize then
            (* transfer complete *)
            (Transfer_complete datasize, csp_buffer_free w packet)
          else if pkt_length packet =? 0 then
            (Goto_error CSP_ERR_SFP, csp_buffer_free w packet)
          else
            (Next_packet datasize data_offset, csp_buffer_free w packet) in
      (* Set total expected size *)
      if datasize =? 0 then
        let datasize := totalsize sfp_header in
        if datasize =? 0 then
          (Goto_error CSP_ERR_SFP, csp_buffer_free w packet)
        else copy datasize
      else copy datasize
  end.

(** The [do ... while] loop.  [pending] is the connection's receive queue
    (the recursion follows it: every pass but the last takes one packet
    with [csp_read]), [return_datasize] the current value of the output
    parameter.  The result is the error code, the output parameter, the
    queue left and the state; [error] still holds its initial
    [CSP_ERR_TIMEDOUT] when [csp_read] returns NULL. *)
Fixpoint recv_loop (packet : csp_packet_t) (pending : list csp_packet_t)
    (datasize data_offset return_datasize : Z) (w : world W)
  {struct pending} : csp_err * Z * list csp_packet_t * world W :=
  match recv_fragment packet datasize data_offset w with
  | (Goto_error error, w) => (error, return_datasize, pending, w)
  | (Transfer_complete datasize, w) => (CSP_ERR_NONE, datasize, pending, w)
  | (Next_packet datasize data_offset, w) =>
    match pending with
    | [] => (CSP_ERR_TIMEDOUT, return_datasize, [], w)
    | packet :: pending =>
      recv_loop packet pending datasize data_offset return_datasize w
    end
  end.

(** [return_datasize] is the value the caller's variable holds before the
    call; the second component of the result is its value afterwards. *)
Definition csp_sfp_recv_fp (w : world W) (return_datasize : Z) (timeout : Z)
    (first_packet : option csp_packet_t) : csp_err * Z * world W :=
  let return_datasize := 0 in
  let c := conn w in
  (* Get first packet from user, or from connection *)
  let '(packet, pending) :=
    match first_packet with
    | None => csp_read (rx c)
    | Some p => (Some p, rx c)
    end in
  match packet with
  | None =>
    (CSP_ERR_TIMEDOUT, return_datasize,
     set_conn w (mk_conn (idout_flags c) (tx c) pending))
  | Some packet =>
    let '(error, return_datasize, pending, w) :=
      recv_loop packet pending 0 0 return_datasize w in
    (error, return_datasize,
     set_conn w (mk_conn (idout_flags c) (tx c) pending))
  end.

Definition csp_sfp_recv (w : world W) (return_datasize : Z) (timeout : Z)
  : csp_err * Z * world W :=
  csp_sfp_recv_fp w return_datasize timeout None.

End Recv.

(** ** Reference storage capabilities *)

(** A source that copies out of a constant blob held in memory:
    [user->data] points at the blob, [read] is a [memcpy] of [size] bytes
    from [blob + offset].  Nothing behind [user->data] changes, so the state
    is [unit]. *)
Definition blob_read (blob : list byte) (u : unit) (buffer : list byte)
    (offset size : Z) : unit * list byte * Z :=
  (u, store 0 (load offset (Z.to_nat size) blob) buffer, size).

(** A sink that records every call: the [size] bytes it was handed and the
    three integer arguments. *)
Record write_call : Type := mk_write_call {
  wc_bytes : list byte;
  wc_offset : Z;
  wc_size : Z;
  wc_totalsize : Z
}.

Definition log_write (log : list write_call) (buffer : list byte)
    (offset size totalsize : Z) : list write_call * Z :=
  (log ++ [mk_write_call (load 0 (Z.to_nat size) buffer) offset size totalsize],
   size).

(** A source that holds fewer bytes than it may be asked for: a [memcpy]
    from the blob, cut at the end of the blob, returning the number of
    bytes copied. *)
Definition short_blob_read (blob : list byte) (u : unit) (buffer : list byte)
    (offset size : Z) : unit * list byte * Z :=
  let n := Z.min size (Z.max 0 (Z.of_nat (length blob) - offset)) in
  (u, store 0 (load offset (Z.to_nat n) blob) buffer, n).

(** A sink with room for [room] bytes: it records the call as [log_write]
    does and returns the number of bytes that fit from [offset] on. *)
Definition bounded_write (room : Z) (log : list write_call)
    (buffer : list byte) (offset size totalsize : Z) : list write_call * Z :=
  (log ++ [mk_write_call (load 0 (Z.to_nat size) buffer) offset size totalsize],
   Z.min size (Z.max 0 (room - offset))).

(** ** The trailer as the specification describes it *)

(** The payload region of a packet: the first [length] bytes of [data]. *)
Definition payload (p : csp_packet_t) : list byte :=
  firstn (Z.to_nat (pkt_length p)) (pkt_data p).

(** Its last 8 bytes, read as two big-endian 32-bit fields. *)
Definition trailer_bytes (p : csp_packet_t) : list byte :=
  skipn (length (payload p) - 8) (payload p).
Definition trailer_offset (p : csp_packet_t) : Z :=
  be32_value (firstn 4 (trailer_bytes p)).
Definition trailer_totalsize (p : csp_packet_t) : Z :=
  be32_value (skipn 4 (trailer_bytes p)).

(** A packet whose [length] lies within its [data] array. *)
Definition packet_in_bounds (p : csp_packet_t) : Prop :=
  0 <= pkt_length p <= Z.of_nat (length (pkt_data p)).

(** The value the local [datasize] has once a fragment passed the "set total
    expected size" step. *)
Definition expected_total (datasize : Z) (h : sfp_header_t) : Z :=
  if datasize =? 0 then totalsize h else datasize.

(** The packet the loop starts from: the caller's, or the first one
    [csp_read] delivers. *)
Definition first_fragment {W : Type} (first_packet : option csp_packet_t)
    (w : world W) : option csp_packet_t :=
  match first_packet with
  | Some p => Some p
  | None => fst (csp_read (rx (conn w)))
  end.

(** ** A transfer seen from its two ends *)

(** The contract of a source that serves a given blob: asked for [size]
    bytes at [offset] inside the blob, it returns [size], keeps the buffer's
    extent and leaves those bytes at the start of the buffer. *)
Definition reads_blob (blob : list byte) (U : Type)
    (read : U -> list byte -> Z -> Z -> U * list byte * Z) : Prop :=
  forall (u : U) (buffer : list byte) (off size : Z),
    0 <= off -> 0 <= size ->
    off + size <= Z.of_nat (length blob) ->
    size <= Z.of_nat (length buffer) ->
    snd (read u buffer off size) = size /\
    length (snd (fst (read u buffer off size))) = length buffer /\
    load 0 (Z.to_nat size) (snd (fst (read u buffer off size)))
    = load off (Z.to_nat size) blob.

(** A packet on the wire that carries [size] bytes of the blob from
    position [count], followed by the trailer [(count, total)]. *)
Definition fragment_of (blob : list byte) (total count size : Z)
    (p : csp_packet_t) : Prop :=
  Z.land (pkt_id_flags p) CSP_FFRAG = CSP_FFRAG /\
  pkt_length p = size + 8 /\
  Z.of_nat (length (pkt_data p)) = CSP_BUFFER_SIZE /\
  load 0 (Z.to_nat size) (pkt_data p) = load count (Z.to_nat size) blob /\
  load size 4 (pkt_data p) = be32_bytes count /\
  load (size + 4) 4 (pkt_data p) = be32_bytes total.

(** The packets that cover the blob from [count] to its end in chunks of
    at most [mtu] bytes. *)
Inductive fragments (blob : list byte) (total mtu : Z)
  : Z -> list csp_packet_t -> Prop :=
| fragments_done : fragments blob total mtu total []
| fragments_more (count : Z) (p : csp_packet_t) (ps : list csp_packet_t) :
    count < total ->
    fragment_of blob total count (Z.min (total - count) mtu) p ->
    fragments blob total mtu (count + Z.min (total - count) mtu) ps ->
    fragments blob total mtu count (p :: ps).

(** Calls of the write capability that lay down consecutive pieces from
    [off] on, each announced with the same total. *)
Fixpoint delivered_in_order (off total : Z) (calls : list write_call)
  : Prop :=
  match calls with
  | [] => True
  | c :: calls =>
      wc_offset c = off /\
      wc_size c = Z.of_nat (length (wc_bytes c)) /\
      wc_totalsize c = total /\
      delivered_in_order (off + wc_size c) total calls
  end.

(** ** A reference configuration *)

(** The values libcsp ships with: 256 bytes of packet data and bit 4 of the
    identifier flags for fragments; a pool that always has a zeroed buffer;
    a connection with nothing queued. *)
Definition reference_buffer_size : Z := 256.
Definition reference_ffrag : Z := 16.

Definition fresh_packet : csp_packet_t :=
  mk_packet 0 0 (repeat Byte.x00 256).
Definition fresh_pool (n : nat) : option csp_packet_t := Some fresh_packet.

Definition idle_world {U : Type} (u : U) : world U :=
  mk_world (mk_conn 0 [] []) 0 [] u.

(** A receiver that has the given packets pending. *)
Definition receiving_world (pending : list csp_packet_t)
  : world (list write_call) :=
  mk_world (mk_conn 0 [] pending) 0 [] [].

(** A 10-byte blob. *)
Definition ten_bytes : list byte :=
  map byte.of_Z [1; 2; 3; 4; 5; 6; 7; 8; 9; 10].

(** A 64 KiB blob. *)
Definition blob_64k : list byte := repeat Byte.x00 (Z.to_nat 65536).

(** The data of a packet from the reference pool after a trailer
    [(0, 65536)] has been written at its start. *)
Definition trailer_only_data : list byte :=
  store 0 (be32_bytes 0) (store 4 (be32_bytes 65536) (repeat Byte.x00 256)).

(** The state of a sender one pass later, when that pass queued a packet
    made of that trailer alone. *)
Definition after_empty_fragment (w : world unit) : world unit :=
  let flags := uint8_t (Z.lor (idout_flags (conn w)) reference_ffrag) in
  mk_world
    (mk_conn flags
       (tx (conn w) ++ [mk_packet 8 flags trailer_only_data])
       (rx (conn w)))
    (S (buffer_gets w)) (buffer_frees w) (user w).

(** A flagged packet made of a payload and a trailer. *)
Definition fragment_packet (bytes : list byte) (off total : Z)
  : csp_packet_t :=
  mk_packet (Z.of_nat (length bytes) + 8) reference_ffrag
    (bytes ++ be32_bytes off ++ be32_bytes total).

(** ** The passes of the two loops, piece by piece *)

(** The sending size of a pass of [csp_sfp_send] (the statements under
    "Calculate sending size"). *)
Definition sending_size (totalsize mtu count : Z) : Z :=
  let size := uint16_t (uint32_t (totalsize - count)) in
  if size >? mtu then uint16_t mtu else size.

(** The statement under "Set fragment flag". *)
Definition set_fragment_flag {U : Type} (w : world U) : world U :=
  let c := conn w in
  set_conn w (mk_conn (uint8_t (Z.lor (idout_flags c) CSP_FFRAG))
                      (tx c) (rx c)).

(** The statements under "Add SFP header": [csp_sfp_header_add], then the
    two stores through the pointer it returns. *)
Definition append_trailer (packet : csp_packet_t) (totalsize count : Z)
  : csp_packet_t :=
  let '(packet, sfp_header) := csp_sfp_header_add packet in
  let packet :=
    set_data packet
      (header_set_totalsize sfp_header (htobe32 totalsize)
         (pkt_data packet)) in
  set_data packet
    (header_set_offset sfp_header (htobe32 count) (pkt_data packet)).

(** A source that also keeps a record of the calls made to it: the offset
    and the size of each and the value it returned, in order, next to the
    state of the source it wraps. *)
Record read_call : Set := mk_read_call {
  rc_offset : Z;
  rc_size : Z;
  rc_returned : Z
}.

Definition recording_read {U : Type}
    (read : U -> list byte -> Z -> Z -> U * list byte * Z)
    (s : U * list read_call) (buffer : list byte) (offset size : Z)
  : (U * list read_call) * list byte * Z :=
  let '(u, buffer, n) := read (fst s) buffer offset size in
  ((u, snd s ++ [mk_read_call offset size n]), buffer, n).

(** Calls of the read capability that ask for consecutive pieces from
    [off] on, none larger than [mtu], none reaching past [total]. *)
Fixpoint reads_contiguous (off total mtu : Z) (calls : list read_call)
  : Prop :=
  match calls with
  | [] => True
  | c :: calls =>
      rc_offset c = off /\
      0 <= rc_size c <= mtu /\
      off + rc_size c <= total /\
      reads_contiguous (off + rc_size c) total mtu calls
  end.

(** A call answered with another size than it asked for, and a record of
    calls in which such a call can only be the last. *)
Definition wrong_size (c : read_call) : Prop := rc_returned c <> rc_size c.

Fixpoint wrong_size_is_last (calls : list read_call) : Prop :=
  match calls with
  | [] => True
  | c :: calls => (wrong_size c -> calls = []) /\ wrong_size_is_last calls
  end.

(** Calls of the write capability that lay down consecutive pieces from
    [off] on (in 32-bit arithmetic), each of at least one byte and at most
    the data capacity minus the trailer, none starting past the total it
    announces. *)
Fixpoint writes_contiguous (off : Z) (calls : list write_call) : Prop :=
  match calls with
  | [] => True
  | c :: calls =>
      wc_offset c = off /\
      0 < wc_size c <= CSP_BUFFER_SIZE - sizeof_sfp_header_t /\
      wc_offset c <= wc_totalsize c /\
      writes_contiguous (uint32_t (off + wc_size c)) calls
  end.

(** The number of bytes a list of write calls handed over, and the number
    of payload bytes a list of fragments carries. *)
Definition delivered_bytes (calls : list write_call) : Z :=
  fold_right (fun c n => wc_size c + n) 0 calls.

Definition payload_bytes (ps : list csp_packet_t) : Z :=
  fold_right (fun p n => (pkt_length p - sizeof_sfp_header_t) + n) 0 ps.

(** The packets a call of [csp_sfp_recv_fp] has before it: the caller's
    first packet, when there is one, then the receive queue. *)
Definition incoming {W : Type} (first_packet : option csp_packet_t)
    (w : world W) : list csp_packet_t :=
  match first_packet with
  | Some p => p :: rx (conn w)
  | None => rx (conn w)
  end.

(** The locals [datasize] and [data_offset] and the state once the loop has
    gone through the given packets, every pass reaching the [while] test;
    [None] when one of them left the loop. *)
Fixpoint recv_passes {W : Type} (write : W -> list byte -> Z -> Z -> Z -> W * Z)
    (packets : list csp_packet_t) (datasize data_offset : Z) (w : world W)
  : option (Z * Z * world W) :=
  match packets with
  | [] => Some (datasize, data_offset, w)
  | packet :: packets =>
    match recv_fragment W write packet datasize data_offset w with
    | (Next_packet datasize data_offset, w) =>
        recv_passes write packets datasize data_offset w
    | _ => None
    end
  end.

(** * Properties *)

(** ** Fixed-width integers and flag bits *)

Lemma uint16_t_small (z : Z) : 0 <= z < 2 ^ 16 -> uint16_t z = z.
Proof. intros H. unfold uint16_t. apply Z.mod_small. exact H. Qed.

Lemma uint32_t_small (z : Z) : 0 <= z < 2 ^ 32 -> uint32_t z = z.
Proof. intros H. unfold uint32_t. apply Z.mod_small. exact H. Qed.

Lemma uint16_t_range (z : Z) : 0 <= uint16_t z < 2 ^ 16.
Proof. unfold uint16_t. apply Z.mod_pos_bound. reflexivity. Qed.

Lemma testbit_high_byte (F n : Z) :
  0 <= F < 2 ^ 8 -> 8 <= n -> Z.testbit F n = false.
Proof.
  intros HF Hn.
  rewrite <- (Z.mod_small F (2 ^ 8)) by exact HF.
  apply Z.mod_pow2_bits_high. lia.
Qed.

(** Once a flag that fits the 8-bit field has been OR-ed in, it reads as set. *)
Lemma land_uint8_lor (f F : Z) :
  0 <= F < 2 ^ 8 -> Z.land (uint8_t (Z.lor f F)) F = F.
Proof.
  intros HF. unfold uint8_t.
  rewrite <- Z.land_ones by lia.
  apply Z.bits_inj'. intros n Hn.
  rewrite !Z.land_spec, Z.lor_spec, Z.testbit_ones_nonneg by lia.
  destruct (Z.ltb_spec n 8) as [Hlt | Hge].
  - destruct (Z.testbit f n), (Z.testbit F n); reflexivity.
  - rewrite (testbit_high_byte F n HF Hge). apply andb_false_r.
Qed.

(** OR-ing the flag in a second time changes nothing. *)
Lemma uint8_lor_idem (f F : Z) :
  uint8_t (Z.lor (uint8_t (Z.lor f F)) F) = uint8_t (Z.lor f F).
Proof.
  unfold uint8_t.
  rewrite <- !Z.land_ones by lia.
  apply Z.bits_inj'. intros n Hn.
  rewrite !Z.land_spec, !Z.lor_spec, !Z.land_spec, !Z.lor_spec.
  destruct (Z.testbit f n), (Z.testbit F n), (Z.testbit (Z.ones 8) n);
    reflexivity.
Qed.

(** ** Byte order *)

Lemma length_be32_bytes (v : Z) : length (be32_bytes v) = 4%nat.
Proof. unfold be32_bytes. rewrite length_rev. apply length_le_split. Qed.

Lemma be32_value_bytes (v : Z) : be32_value (be32_bytes v) = v mod 2 ^ 32.
Proof.
  unfold be32_value, be32_bytes.
  rewrite rev_involutive. apply (le_combine_split 4 v).
Qed.

Lemma be32_value_range (bs : list byte) :
  length bs = 4%nat -> 0 <= be32_value bs < 2 ^ 32.
Proof.
  intros H. unfold be32_value.
  pose proof (le_combine_bound (rev bs)) as B.
  rewrite length_rev, H in B. exact B.
Qed.

Lemma le_split_combine4 (bs : list byte) :
  length bs = 4%nat -> le_split 4 (le_combine bs) = bs.
Proof. intros H. rewrite <- H. apply split_le_combine. Qed.

Lemma length_host32_bytes (v : Z) : length (host32_bytes v) = 4%nat.
Proof.
  unfold host32_bytes. destruct host_big_endian.
  - rewrite length_rev. apply length_le_split.
  - apply length_le_split.
Qed.

Lemma host32_value_bytes (v : Z) : host32_value (host32_bytes v) = v mod 2 ^ 32.
Proof.
  unfold host32_value, host32_bytes. destruct host_big_endian.
  - rewrite rev_involutive. apply (le_combine_split 4 v).
  - apply (le_combine_split 4 v).
Qed.

(** Storing [htobe32 v] puts the big-endian bytes of [v] in memory, whatever
    the byte order of the host. *)
Lemma host32_bytes_htobe32 (v : Z) : host32_bytes (htobe32 v) = be32_bytes v.
Proof.
  unfold host32_bytes, htobe32, be32_bytes, bswap32. destruct host_big_endian.
  - reflexivity.
  - apply le_split_combine4. rewrite length_rev. apply length_le_split.
Qed.

(** Reading a 32-bit object and applying [be32toh] yields the big-endian
    value of its bytes. *)
Lemma be32toh_host32_value (bs : list byte) :
  length bs = 4%nat -> be32toh (host32_value bs) = be32_value bs.
Proof.
  intros H. unfold be32toh, host32_value, be32_value, bswap32.
  destruct host_big_endian.
  - reflexivity.
  - rewrite (le_split_combine4 bs H). reflexivity.
Qed.

(** ** Packet memory *)

Lemma length_store (pos : Z) (bs d : list byte) :
  length (store pos bs d) = length d.
Proof.
  unfold store.
  destruct (0 <=? pos) eqn:E1; simpl; [ | reflexivity ].
  destruct (pos + Z.of_nat (length bs) <=? Z.of_nat (length d)) eqn:E2;
    [ | reflexivity ].
  apply Z.leb_le in E1. apply Z.leb_le in E2.
  rewrite !length_app, length_firstn, length_skipn. lia.
Qed.

Lemma length_load (pos : Z) (n : nat) (d : list byte) :
  0 <= pos -> pos + Z.of_nat n <= Z.of_nat (length d) ->
  length (load pos n d) = n.
Proof.
  intros H1 H2. unfold load. rewrite length_firstn, length_skipn. lia.
Qed.

Lemma nth_error_load (pos : Z) (n : nat) (d : list byte) (i : nat) :
  nth_error (load pos n d) i =
  if (i <? n)%nat then nth_error d (Z.to_nat pos + i) else None.
Proof. unfold load. rewrite nth_error_firstn, nth_error_skipn. reflexivity. Qed.

Lemma nth_error_store (pos : Z) (bs d : list byte) (i : nat) :
  0 <= pos -> pos + Z.of_nat (length bs) <= Z.of_nat (length d) ->
  nth_error (store pos bs d) i =
  if (i <? Z.to_nat pos)%nat then nth_error d i
  else if (i <? Z.to_nat pos + length bs)%nat
       then nth_error bs (i - Z.to_nat pos)
       else nth_error d i.
Proof.
  intros H1 H2. unfold store.
  destruct (Z.leb_spec 0 pos); [ | lia ].
  destruct (Z.leb_spec (pos + Z.of_nat (length bs)) (Z.of_nat (length d)));
    [ | lia ].
  simpl.
  rewrite nth_error_app, length_firstn, nth_error_firstn.
  replace (Nat.min (Z.to_nat pos) (length d)) with (Z.to_nat pos) by lia.
  destruct (Nat.ltb_spec i (Z.to_nat pos)); [ reflexivity | ].
  rewrite nth_error_app.
  destruct (Nat.ltb_spec (i - Z.to_nat pos) (length bs));
    destruct (Nat.ltb_spec i (Z.to_nat pos + length bs)); try lia.
  - reflexivity.
  - rewrite nth_error_skipn. f_equal. lia.
Qed.

(** Reading back what was just written. *)
Lemma load_store_same (pos : Z) (bs d : list byte) :
  0 <= pos -> pos + Z.of_nat (length bs) <= Z.of_nat (length d) ->
  load pos (length bs) (store pos bs d) = bs.
Proof.
  intros H1 H2. apply nth_error_ext. intros i.
  rewrite nth_error_load, nth_error_store by assumption.
  destruct (Nat.ltb_spec i (length bs)).
  - destruct (Nat.ltb_spec (Z.to_nat pos + i) (Z.to_nat pos)); [ lia | ].
    destruct (Nat.ltb_spec (Z.to_nat pos + i) (Z.to_nat pos + length bs));
      [ | lia ].
    f_equal. lia.
  - symmetry. apply nth_error_None. lia.
Qed.

(** A write does not disturb a region it does not overlap. *)
Lemma load_store_other (pos : Z) (bs d : list byte) (p : Z) (n : nat) :
  0 <= pos -> pos + Z.of_nat (length bs) <= Z.of_nat (length d) ->
  0 <= p ->
  p + Z.of_nat n <= pos \/ pos + Z.of_nat (length bs) <= p ->
  load p n (store pos bs d) = load p n d.
Proof.
  intros H1 H2 H3 H4. apply nth_error_ext. intros i.
  rewrite !nth_error_load, nth_error_store by assumption.
  destruct (Nat.ltb_spec i n); [ | reflexivity ].
  destruct (Nat.ltb_spec (Z.to_nat p + i) (Z.to_nat pos)); [ reflexivity | ].
  destruct (Nat.ltb_spec (Z.to_nat p + i) (Z.to_nat pos + length bs));
    [ lia | reflexivity ].
Qed.

Lemma firstn_plus (n m : nat) :
  forall l : list byte, firstn (n + m) l = firstn n l ++ firstn m (skipn n l).
Proof.
  induction n as [ | n IH]; intros l; [ reflexivity | ].
  destruct l as [ | b l]; cbn [Nat.add firstn skipn app].
  - rewrite firstn_nil. reflexivity.
  - rewrite IH. reflexivity.
Qed.

(** Adjacent regions read as one. *)
Lemma load_app (pos : Z) (n m : nat) (d : list byte) :
  0 <= pos ->
  load pos (n + m) d = load pos n d ++ load (pos + Z.of_nat n) m d.
Proof.
  intros H. unfold load. rewrite firstn_plus, skipn_skipn.
  do 3 f_equal. lia.
Qed.

Lemma blob_read_contract (blob : list byte) :
  reads_blob blob unit (blob_read blob).
Proof.
  intros u buffer off size Hoff Hsize Hblob Hbuf.
  unfold blob_read. cbn [fst snd].
  assert (L : length (load off (Z.to_nat size) blob) = Z.to_nat size)
    by (apply length_load; lia).
  split; [ reflexivity | ]. split; [ apply length_store | ].
  rewrite <- L at 1. apply load_store_same; rewrite ?L; lia.
Qed.

(** ** Decoding the trailer in place *)

(** The two [be32toh] assignments of [csp_sfp_header_remove] leave the decoded
    fields readable through the header pointer, and touch nothing before
    the trailer. *)
Lemma header_decode_in_place (pos : Z) (d : list byte) :
  0 <= pos -> pos + 8 <= Z.of_nat (length d) ->
  let d1 := header_set_offset pos (be32toh (header_get_offset pos d)) d in
  let d2 :=
    header_set_totalsize pos (be32toh (header_get_totalsize pos d1)) d1 in
  header_get_offset pos d2 = be32_value (load pos 4 d) /\
  header_get_totalsize pos d2 = be32_value (load (pos + 4) 4 d) /\
  length d2 = length d /\
  (forall (n : nat), Z.of_nat n <= pos -> load 0 n d2 = load 0 n d).
Proof.
  intros Hpos Hfit d1 d2.
  assert (L1 : length (load pos 4 d) = 4%nat) by (apply length_load; lia).
  assert (L2 : length (load (pos + 4) 4 d) = 4%nat) by (apply length_load; lia).
  assert (Hd1 : length d1 = length d) by apply length_store.
  assert (E1 : load (pos + 4) 4 d1 = load (pos + 4) 4 d).
  { unfold d1, header_set_offset. apply load_store_other;
      rewrite ?length_host32_bytes; lia. }
  assert (Hoff : be32toh (header_get_offset pos d) = be32_value (load pos 4 d)).
  { unfold header_get_offset. apply be32toh_host32_value. exact L1. }
  assert (Htot : be32toh (header_get_totalsize pos d1)
                 = be32_value (load (pos + 4) 4 d)).
  { unfold header_get_totalsize. rewrite E1.
    apply be32toh_host32_value. exact L2. }
  repeat split.
  - unfold d2, header_get_offset, header_set_totalsize.
    rewrite load_store_other
      by (rewrite ?length_host32_bytes, ?Hd1; lia).
    unfold d1, header_set_offset.
    rewrite <- (length_host32_bytes (be32toh (header_get_offset pos d))) at 1.
    rewrite load_store_same by (rewrite ?length_host32_bytes; lia).
    rewrite host32_value_bytes, Hoff.
    apply Z.mod_small. apply be32_value_range. exact L1.
  - unfold d2, header_get_totalsize, header_set_totalsize.
    rewrite <- (length_host32_bytes (be32toh (header_get_totalsize pos d1)))
      at 1.
    rewrite load_store_same by (rewrite ?length_host32_bytes, ?Hd1; lia).
    fold (header_get_totalsize pos d1).
    rewrite host32_value_bytes, Htot.
    apply Z.mod_small. apply be32_value_range. exact L2.
  - unfold d2, header_set_totalsize. rewrite length_store. exact Hd1.
  - intros n Hn. unfold d2, header_set_totalsize.
    rewrite load_store_other
      by (rewrite ?length_host32_bytes, ?Hd1; lia).
    unfold d1, header_set_offset.
    apply load_store_other; rewrite ?length_host32_bytes; lia.
Qed.

(** What [csp_sfp_header_remove] does to a flagged packet that holds a
    trailer. *)
Lemma header_remove_flagged (p : csp_packet_t) :
  Z.land (pkt_id_flags p) CSP_FFRAG <> 0 ->
  8 <= pkt_length p <= Z.of_nat (length (pkt_data p)) ->
  let off := be32_value (load (pkt_length p - 8) 4 (pkt_data p)) in
  let tot := be32_value (load (pkt_length p - 4) 4 (pkt_data p)) in
  exists p',
    csp_sfp_header_remove p =
      (p', if off >? tot then None else Some (mk_header off tot)) /\
    pkt_length p' = pkt_length p - 8 /\
    pkt_id_flags p' = pkt_id_flags p /\
    length (pkt_data p') = length (pkt_data p) /\
    (forall (n : nat), Z.of_nat n <= pkt_length p - 8 ->
       load 0 n (pkt_data p') = load 0 n (pkt_data p)).
Proof.
  intros Hflag Hlen off tot.
  destruct (header_decode_in_place (pkt_length p - 8) (pkt_data p))
    as (Goff & Gtot & Glen & Gpre); [ lia | lia | ].
  replace (pkt_length p - 8 + 4) with (pkt_length p - 4) in Gtot by lia.
  unfold csp_sfp_header_remove.
  destruct (Z.eqb_spec (Z.land (pkt_id_flags p) CSP_FFRAG) 0); [ contradiction | ].
  unfold sizeof_sfp_header_t.
  destruct (Z.ltb_spec (pkt_length p) 8); [ lia | ].
  cbv zeta. cbn [pkt_data pkt_length pkt_id_flags set_data set_length offset totalsize].
  rewrite Goff, Gtot. fold off. fold tot.
  eexists. split.
  - destruct (off >? tot); reflexivity.
  - cbn [pkt_data pkt_length pkt_id_flags]. repeat split; assumption.
Qed.

(** The header pointer of an in-bounds packet points at the last 8 bytes of
    the payload. *)
Lemma trailer_bytes_load (p : csp_packet_t) :
  8 <= pkt_length p <= Z.of_nat (length (pkt_data p)) ->
  firstn 4 (trailer_bytes p) = load (pkt_length p - 8) 4 (pkt_data p) /\
  skipn 4 (trailer_bytes p) = load (pkt_length p - 4) 4 (pkt_data p).
Proof.
  intros H. unfold trailer_bytes, payload.
  rewrite length_firstn.
  replace (Nat.min (Z.to_nat (pkt_length p)) (length (pkt_data p)))
    with (Z.to_nat (pkt_length p)) by lia.
  split; apply nth_error_ext; intros i; rewrite nth_error_load.
  - rewrite nth_error_firstn, nth_error_skipn, nth_error_firstn.
    destruct (Nat.ltb_spec i 4); [ | reflexivity ].
    destruct (Nat.ltb_spec (Z.to_nat (pkt_length p) - 8 + i)
                           (Z.to_nat (pkt_length p))); [ | lia ].
    f_equal. lia.
  - rewrite skipn_skipn, nth_error_skipn, nth_error_firstn.
    destruct (Nat.ltb_spec i 4);
      destruct (Nat.ltb_spec (4 + (Z.to_nat (pkt_length p) - 8) + i)
                             (Z.to_nat (pkt_length p))); try lia.
    + f_equal. lia.
    + reflexivity.
Qed.

(** C4: the trailer decode returns NULL exactly when the fragment flag is
    absent, or the payload is shorter than the 8-byte trailer, or the
    big-endian offset read from the trailer exceeds the big-endian total
    size; in every other case the header it returns holds the offset and the
    total size read big-endian from the last 8 bytes of the payload. *)
Theorem csp_sfp_header_remove_decodes (p : csp_packet_t) :
  packet_in_bounds p ->
  (snd (csp_sfp_header_remove p) = None <->
   (Z.land (pkt_id_flags p) CSP_FFRAG = 0 \/
    pkt_length p < sizeof_sfp_header_t \/
    trailer_offset p > trailer_totalsize p)) /\
  (snd (csp_sfp_header_remove p) <> None ->
   snd (csp_sfp_header_remove p) =
     Some (mk_header (trailer_offset p) (trailer_totalsize p))).
Proof.
  intros Hb. unfold packet_in_bounds in Hb. unfold sizeof_sfp_header_t.
  destruct (Z.eq_dec (Z.land (pkt_id_flags p) CSP_FFRAG) 0) as [Hf | Hf].
  { unfold csp_sfp_header_remove.
    rewrite (proj2 (Z.eqb_eq _ _) Hf). cbn [snd].
    split; [ split; auto | intros C; contradiction ]. }
  destruct (Z.lt_ge_cases (pkt_length p) 8) as [Hl | Hl].
  { unfold csp_sfp_header_remove, sizeof_sfp_header_t.
    rewrite (proj2 (Z.eqb_neq _ _) Hf), (proj2 (Z.ltb_lt _ _) Hl). cbn [snd].
    split; [ split; auto | intros C; contradiction ]. }
  destruct (header_remove_flagged p Hf) as (p' & E & _); [ lia | ].
  destruct (trailer_bytes_load p) as [T1 T2]; [ lia | ].
  unfold trailer_offset, trailer_totalsize.
  rewrite E, T1, T2. cbn [snd].
  set (off := be32_value (load (pkt_length p - 8) 4 (pkt_data p))).
  set (tot := be32_value (load (pkt_length p - 4) 4 (pkt_data p))).
  destruct (Z.gtb_spec off tot) as [Hgt | Hle].
  - split; [ split; [ intros _; right; right; lia | reflexivity ]
           | intros C; contradiction ].
  - split; [ split; [ discriminate | intros [C | [C | C]]; lia ]
           | reflexivity ].
Qed.

(** C8, as the code has it: the decode returns the packet untouched when
    the fragment flag is absent or the payload is shorter than the trailer;
    once both tests pass it takes the trailer off the length, before the
    offset is compared with the total size, so the length is 8 smaller on
    success and also when that last test makes it return NULL. *)
Theorem csp_sfp_header_remove_length (p : csp_packet_t) :
  ((Z.land (pkt_id_flags p) CSP_FFRAG = 0 \/
    pkt_length p < sizeof_sfp_header_t) ->
   csp_sfp_header_remove p = (p, None)) /\
  (Z.land (pkt_id_flags p) CSP_FFRAG <> 0 /\
   sizeof_sfp_header_t <= pkt_length p ->
   pkt_length (fst (csp_sfp_header_remove p))
   = pkt_length p - sizeof_sfp_header_t).
Proof.
  unfold csp_sfp_header_remove, sizeof_sfp_header_t. split.
  - intros [Hf | Hl].
    + rewrite (proj2 (Z.eqb_eq _ _) Hf). reflexivity.
    + rewrite (proj2 (Z.ltb_lt _ _) Hl).
      destruct (Z.land (pkt_id_flags p) CSP_FFRAG =? 0); reflexivity.
  - intros [Hf Hl].
    rewrite (proj2 (Z.eqb_neq _ _) Hf).
    destruct (Z.ltb_spec (pkt_length p) 8) as [C | _]; [ lia | ].
    cbv zeta.
    match goal with |- context [if ?b then _ else _] => destruct b end;
      reflexivity.
Qed.

(** ** The receive loop *)

Section RecvFacts.

Variable W : Type.
Variable write : W -> list byte -> Z -> Z -> Z -> W * Z.


(** A pass of the loop over a fragment that passes the checks. *)
Lemma recv_fragment_accepted
    (packet packet' : csp_packet_t) (h : sfp_header_t)
    (datasize data_offset : Z) (w : world W) :
  csp_sfp_header_remove packet = (packet', Some h) ->
  offset h = data_offset ->
  pkt_length packet' <> 0 ->
  pkt_length packet' <= CSP_BUFFER_SIZE - sizeof_sfp_header_t ->
  expected_total datasize h <> 0 ->
  let call := write (user w) (pkt_data packet') data_offset
                (pkt_length packet') (totalsize h) in
  let r := recv_fragment W write packet datasize data_offset w in
  snd r = csp_buffer_free (set_user w (fst call)) packet' /\
  (snd call <> pkt_length packet' -> fst r = Goto_error CSP_ERR_SFP) /\
  (snd call = pkt_length packet' ->
   fst r =
     let data_offset' := uint32_t (data_offset + pkt_length packet') in
     if data_offset' >=? expected_total datasize h
     then Transfer_complete (expected_total datasize h)
     else Next_packet (expected_total datasize h) data_offset').
Proof.
  intros Hdec Hoff Hlen Hcap Htot call r.
  unfold r, recv_fragment. rewrite Hdec.
  rewrite (proj2 (Z.eqb_eq _ _) Hoff), (proj2 (Z.eqb_neq _ _) Hlen).
  destruct (Z.gtb_spec (pkt_length packet')
              (CSP_BUFFER_SIZE - sizeof_sfp_header_t)) as [C | _]; [ lia | ].
  cbn [negb orb]. cbv zeta.
  unfold expected_total in *.
  fold call. destruct call as [u n]. cbn [fst snd].
  assert (Hinner :
    forall ds : Z,
      let res :=
        (if negb (pkt_length packet' =? n)
         then (Goto_error CSP_ERR_SFP, csp_buffer_free (set_user w u) packet')
         else
           if uint32_t (data_offset + pkt_length packet') >=? ds
           then (Transfer_complete ds, csp_buffer_free (set_user w u) packet')
           else
             if false
             then (Goto_error CSP_ERR_SFP,
                   csp_buffer_free (set_user w u) packet')
             else (Next_packet ds (uint32_t (data_offset + pkt_length packet')),
                   csp_buffer_free (set_user w u) packet')) in
      snd res = csp_buffer_free (set_user w u) packet' /\
      (n <> pkt_length packet' -> fst res = Goto_error CSP_ERR_SFP) /\
      (n = pkt_length packet' ->
       fst res =
         if uint32_t (data_offset + pkt_length packet') >=? ds
         then Transfer_complete ds
         else Next_packet ds (uint32_t (data_offset + pkt_length packet')))).
  { intros ds res. unfold res.
    destruct (Z.eqb_spec (pkt_length packet') n) as [E | E]; cbn [negb].
    - destruct (uint32_t (data_offset + pkt_length packet') >=? ds);
        cbn [fst snd]; repeat split; auto; intros C; congruence.
    - cbn [fst snd]. repeat split; auto. intros C. congruence. }
  destruct (Z.eqb_spec datasize 0) as [E0 | E0].
  - rewrite (proj2 (Z.eqb_neq _ _) Htot). apply Hinner.
  - apply Hinner.
Qed.

Lemma recv_loop_unfold (packet : csp_packet_t) (pending : list csp_packet_t)
    (datasize data_offset return_datasize : Z) (w : world W) :
  recv_loop W write packet pending datasize data_offset return_datasize w =
  match recv_fragment W write packet datasize data_offset w with
  | (Goto_error error, w) => (error, return_datasize, pending, w)
  | (Transfer_complete datasize, w) => (CSP_ERR_NONE, datasize, pending, w)
  | (Next_packet datasize data_offset, w) =>
    match pending with
    | [] => (CSP_ERR_TIMEDOUT, return_datasize, [], w)
    | packet :: pending =>
      recv_loop W write packet pending datasize data_offset return_datasize w
    end
  end.
Proof. destruct pending; reflexivity. Qed.

(** The passes before a given packet, seen from the loop: once they have
    all reached the [while] test, the loop is at that packet with the
    locals and the state they left. *)
Lemma recv_loop_passes (before : list csp_packet_t) :
  forall (first : csp_packet_t) (rest : list csp_packet_t)
         (packet : csp_packet_t) (pending : list csp_packet_t)
         (datasize data_offset return_datasize : Z) (w : world W)
         (datasize' data_offset' : Z) (w' : world W),
    first :: rest = before ++ packet :: pending ->
    recv_passes write before datasize data_offset w
    = Some (datasize', data_offset', w') ->
    recv_loop W write first rest datasize data_offset return_datasize w
    = recv_loop W write packet pending datasize' data_offset'
        return_datasize w'.
Proof.
  induction before as [ | b before IH];
    intros first rest packet pending datasize data_offset rd w
           datasize' data_offset' w' Hq Hp.
  - cbn [app] in Hq. injection Hq as -> ->.
    cbn [recv_passes] in Hp. injection Hp as -> -> ->. reflexivity.
  - cbn [app] in Hq. injection Hq as -> ->.
    cbn [recv_passes] in Hp. rewrite recv_loop_unfold.
    destruct (recv_fragment W write b datasize data_offset w)
      as [[e | d | d off1] w1]; try discriminate Hp.
    destruct (before ++ packet :: pending) as [ | next rest] eqn:Hrest;
      [ destruct before; discriminate Hrest | ].
    exact (IH next rest packet pending d off1 rd w1 _ _ _ (eq_sym Hrest) Hp).
Qed.

(** C7, as the code has it: for a fragment that passed the checks the write
    capability is called on the packet's data with the running
    [data_offset], the payload length, and the total size carried by that
    fragment's own trailer.  A result different from the payload length
    ends the pass, the loop and the call with [CSP_ERR_SFP]: the loop
    returns it leaving the output parameter and the rest of the queue as
    they are, and every call of [csp_sfp_recv_fp] that has come to this
    fragment returns it with [datasize] 0.  An equal result advances
    [data_offset]; the transfer is complete once it reaches the expected
    total, and otherwise the loop, and the call, go on with the next
    packet from the state the write capability left. *)
Theorem csp_sfp_recv_fp_write_call
    (packet packet' : csp_packet_t) (h : sfp_header_t)
    (pending : list csp_packet_t)
    (datasize data_offset return_datasize : Z) (w : world W) :
  sizeof_sfp_header_t <= CSP_BUFFER_SIZE ->
  csp_sfp_header_remove packet = (packet', Some h) ->
  offset h = data_offset ->
  pkt_length packet' <> 0 ->
  pkt_length packet' <= CSP_BUFFER_SIZE - sizeof_sfp_header_t ->
  expected_total datasize h <> 0 ->
  let call := write (user w) (pkt_data packet') data_offset
                (pkt_length packet') (totalsize h) in
  let r := recv_fragment W write packet datasize data_offset w in
  let w' := csp_buffer_free (set_user w (fst call)) packet' in
  snd r = w' /\
  (snd call <> pkt_length packet' ->
   fst r = Goto_error CSP_ERR_SFP /\
   recv_loop W write packet pending datasize data_offset return_datasize w
   = (CSP_ERR_SFP, return_datasize, pending, w') /\
   forall (w0 : world W) (first_packet : option csp_packet_t)
          (before : list csp_packet_t) (timeout : Z),
     incoming first_packet w0 = before ++ packet :: pending ->
     recv_passes write before 0 0 w0 = Some (datasize, data_offset, w) ->
     csp_sfp_recv_fp W write w0 return_datasize timeout first_packet
     = (CSP_ERR_SFP, 0,
        set_conn w'
          (mk_conn (idout_flags (conn w0)) (tx (conn w0)) pending))) /\
  (snd call = pkt_length packet' ->
   let data_offset' := uint32_t (data_offset + pkt_length packet') in
   fst r =
     (if data_offset' >=? expected_total datasize h
      then Transfer_complete (expected_total datasize h)
      else Next_packet (expected_total datasize h) data_offset') /\
   recv_loop W write packet pending datasize data_offset return_datasize w
   = (if data_offset' >=? expected_total datasize h
      then (CSP_ERR_NONE, expected_total datasize h, pending, w')
      else
        match pending with
        | [] => (CSP_ERR_TIMEDOUT, return_datasize, [], w')
        | next :: rest =>
            recv_loop W write next rest (expected_total datasize h)
              data_offset' return_datasize w'
        end) /\
   forall (w0 : world W) (first_packet : option csp_packet_t)
          (before : list csp_packet_t) (timeout : Z),
     incoming first_packet w0 = before ++ packet :: pending ->
     recv_passes write before 0 0 w0 = Some (datasize, data_offset, w) ->
     csp_sfp_recv_fp W write w0 return_datasize timeout first_packet
     = let c := mk_conn (idout_flags (conn w0)) (tx (conn w0)) in
       if data_offset' >=? expected_total datasize h
       then (CSP_ERR_NONE, expected_total datasize h, set_conn w' (c pending))
       else
         match pending with
         | [] => (CSP_ERR_TIMEDOUT, 0, set_conn w' (c []))
         | next :: rest =>
             let '(error, return_datasize, pending, w) :=
               recv_loop W write next rest (expected_total datasize h)
                 data_offset' 0 w' in
             (error, return_datasize, set_conn w (c pending))
         end).
Proof.
  intros _ Hdec Hoff Hlen Hcap Htot call r w'.
  destruct (recv_fragment_accepted packet packet' h datasize data_offset w
              Hdec Hoff Hlen Hcap Htot) as (Hw & Hbad & Hgood).
  fold call in Hw, Hbad, Hgood. fold r in Hw, Hbad, Hgood. fold w' in Hw.
  cbv zeta in Hgood.
  assert (Hr : recv_fragment W write packet datasize data_offset w
               = (fst r, w')).
  { rewrite <- Hw. unfold r. apply surjective_pairing. }
  assert (Hreach :
    forall (w0 : world W) (first_packet : option csp_packet_t)
           (before : list csp_packet_t) (timeout : Z),
      incoming first_packet w0 = before ++ packet :: pending ->
      recv_passes write before 0 0 w0 = Some (datasize, data_offset, w) ->
      csp_sfp_recv_fp W write w0 return_datasize timeout first_packet
      = let '(error, out, q, w2) :=
          recv_loop W write packet pending datasize data_offset 0 w in
        (error, out,
         set_conn w2 (mk_conn (idout_flags (conn w0)) (tx (conn w0)) q))).
  { intros w0 first_packet before timeout Hq Hp.
    unfold csp_sfp_recv_fp, incoming in *. cbv zeta.
    destruct first_packet as [p | ].
    - rewrite (recv_loop_passes before p (rx (conn w0)) packet pending
                 0 0 0 w0 datasize data_offset w Hq Hp).
      reflexivity.
    - destruct (rx (conn w0)) as [ | p q];
        [ destruct before; discriminate Hq | ].
      cbn [csp_read].
      rewrite (recv_loop_passes before p q packet pending
                 0 0 0 w0 datasize data_offset w Hq Hp).
      reflexivity. }
  split; [ exact Hw | ]. split.
  - intros Hne. specialize (Hbad Hne).
    assert (Hloop : forall rd,
              recv_loop W write packet pending datasize data_offset rd w
              = (CSP_ERR_SFP, rd, pending, w')).
    { intros rd. rewrite recv_loop_unfold, Hr, Hbad. reflexivity. }
    split; [ exact Hbad | ]. split; [ apply Hloop | ].
    intros w0 first_packet before timeout Hq Hp.
    rewrite (Hreach w0 first_packet before timeout Hq Hp), Hloop.
    reflexivity.
  - intros Heq. specialize (Hgood Heq). cbv zeta.
    assert (Hloop : forall rd,
              recv_loop W write packet pending datasize data_offset rd w
              = (if uint32_t (data_offset + pkt_length packet')
                    >=? expected_total datasize h
                 then (CSP_ERR_NONE, expected_total datasize h, pending, w')
                 else
                   match pending with
                   | [] => (CSP_ERR_TIMEDOUT, rd, [], w')
                   | next :: rest =>
                       recv_loop W write next rest (expected_total datasize h)
                         (uint32_t (data_offset + pkt_length packet')) rd w'
                   end)).
    { intros rd. rewrite recv_loop_unfold, Hr, Hgood.
      destruct (uint32_t (data_offset + pkt_length packet')
                >=? expected_total datasize h); reflexivity. }
    split; [ exact Hgood | ]. split; [ apply Hloop | ].
    intros w0 first_packet before timeout Hq Hp.
    rewrite (Hreach w0 first_packet before timeout Hq Hp), Hloop.
    destruct (uint32_t (data_offset + pkt_length packet')
              >=? expected_total datasize h); [ reflexivity | ].
    destruct pending as [ | next rest]; reflexivity.
Qed.

(** What a pass of the loop can conclude: the only error it raises itself
    is [CSP_ERR_SFP], and the [datasize] it carries on is the expected total,
    which is not zero. *)
Lemma recv_fragment_flow (packet : csp_packet_t) (datasize data_offset : Z)
    (w w' : world W) (f : flow) :
  recv_fragment W write packet datasize data_offset w = (f, w') ->
  match f with
  | Goto_error e => e = CSP_ERR_SFP
  | Transfer_complete d | Next_packet d _ =>
      exists packet' h,
        csp_sfp_header_remove packet = (packet', Some h) /\
        d = expected_total datasize h /\ d <> 0
  end.
Proof.
  unfold recv_fragment, expected_total.
  destruct (csp_sfp_header_remove packet) as [packet' [h | ]].
  2: { intros H. inversion H. reflexivity. }
  destruct (negb (offset h =? data_offset) || (pkt_length packet' =? 0)
            || (pkt_length packet' >? CSP_BUFFER_SIZE - sizeof_sfp_header_t)).
  { intros H. inversion H. reflexivity. }
  cbv zeta.
  destruct (write (user w) (pkt_data packet') data_offset
              (pkt_length packet') (totalsize h)) as [u n].
  destruct (Z.eqb_spec datasize 0) as [E0 | E0];
    [ destruct (Z.eqb_spec (totalsize h) 0) as [E1 | E1] | ];
    repeat match goal with
           | |- context [if ?b then _ else _] => destruct b
           end;
    intros H; inversion H; subst; try reflexivity;
    exists packet', h; auto.
Qed.

(** The output parameter across the loop: an error leaves it as it was, and
    success stores the expected total. *)
Lemma recv_loop_return_datasize (pending : list csp_packet_t) :
  forall (packet : csp_packet_t) (datasize data_offset rd : Z) (w : world W),
    let r := recv_loop W write packet pending datasize data_offset rd w in
    (fst (fst (fst r)) <> CSP_ERR_NONE -> snd (fst (fst r)) = rd) /\
    (fst (fst (fst r)) = CSP_ERR_NONE ->
     exists packet' h,
       csp_sfp_header_remove packet = (packet', Some h) /\
       snd (fst (fst r)) = expected_total datasize h /\
       snd (fst (fst r)) <> 0).
Proof.
  induction pending as [ | next pending IH]; intros packet datasize data_offset rd w;
    cbn [recv_loop];
    destruct (recv_fragment W write packet datasize data_offset w) as [f w1] eqn:F;
    pose proof (recv_fragment_flow _ _ _ _ _ _ F) as Hf;
    destruct f as [e | d | d off1]; cbn [fst snd].
  - split; [ reflexivity | intros C; congruence ].
  - split; [ intros C; congruence | intros _; exact Hf ].
  - split; [ reflexivity | intros C; discriminate ].
  - split; [ reflexivity | intros C; congruence ].
  - split; [ intros C; congruence | intros _; exact Hf ].
  - destruct Hf as (packet' & h & Hdec & Hd & Hnz).
    destruct (IH next d off1 rd w1) as [IH1 IH2].
    split; [ exact IH1 | ].
    intros Hok. destruct (IH2 Hok) as (p2 & h2 & _ & Hout & Hout0).
    exists packet', h. split; [ exact Hdec | ].
    split; [ | exact Hout0 ].
    rewrite Hout. unfold expected_total at 1.
    rewrite (proj2 (Z.eqb_neq _ _) Hnz). exact Hd.
Qed.

(** C10: [csp_sfp_recv_fp] first stores 0 through [return_datasize], so
    whatever the caller's variable held, it is 0 after every call that
    returns an error (the timeout, or [CSP_ERR_SFP]); only the successful
    return stores something else, namely the total size declared by the
    trailer of the first fragment, which is not zero. *)
Theorem csp_sfp_recv_fp_return_datasize
    (w : world W) (return_datasize timeout : Z)
    (first_packet : option csp_packet_t) :
  let r := csp_sfp_recv_fp W write w return_datasize timeout first_packet in
  (fst (fst r) <> CSP_ERR_NONE -> snd (fst r) = 0) /\
  (fst (fst r) = CSP_ERR_NONE ->
   exists packet packet' h,
     first_fragment first_packet w = Some packet /\
     csp_sfp_header_remove packet = (packet', Some h) /\
     snd (fst r) = totalsize h /\ totalsize h <> 0).
Proof.
  unfold csp_sfp_recv_fp, first_fragment. cbv zeta.
  assert (G : forall packet pending,
    let r := recv_loop W write packet pending 0 0 0 w in
    (fst (fst (fst r)) <> CSP_ERR_NONE -> snd (fst (fst r)) = 0) /\
    (fst (fst (fst r)) = CSP_ERR_NONE ->
     exists packet' h,
       csp_sfp_header_remove packet = (packet', Some h) /\
       snd (fst (fst r)) = totalsize h /\ totalsize h <> 0)).
  { intros packet pending r.
    destruct (recv_loop_return_datasize pending packet 0 0 0 w) as [G1 G2].
    fold r in G1, G2. split; [ exact G1 | ].
    intros Hok. destruct (G2 Hok) as (packet' & h & Hdec & Hout & Hnz).
    unfold expected_total in Hout. cbn in Hout.
    exists packet', h. rewrite <- Hout. auto. }
  destruct first_packet as [p | ].
  - specialize (G p (rx (conn w))).
    destruct (recv_loop W write p (rx (conn w)) 0 0 0 w) as [[[e out] q] w1].
    cbn [fst snd] in *. destruct G as [G1 G2].
    split; [ exact G1 | ].
    intros Hok. destruct (G2 Hok) as (packet' & h & Hh).
    exists p, packet', h. split; [ reflexivity | exact Hh ].
  - destruct (rx (conn w)) as [ | p q0]; cbn [csp_read fst snd].
    + split; [ reflexivity | intros C; discriminate ].
    + specialize (G p q0).
      destruct (recv_loop W write p q0 0 0 0 w) as [[[e out] q] w1].
      cbn [fst snd] in *. destruct G as [G1 G2].
      split; [ exact G1 | ].
      intros Hok. destruct (G2 Hok) as (packet' & h & Hh).
      exists p, packet', h. split; [ reflexivity | exact Hh ].
Qed.

End RecvFacts.

(** ** The send loop *)

Section SendFacts.

Variable U : Type.
Variable read : U -> list byte -> Z -> Z -> U * list byte * Z.

(** Case analysis on the call of the read capability in the goal, and on
    the comparison of its result with the size asked for. *)
Ltac destruct_read :=
  match goal with
  | |- context [read ?a ?b ?c ?d] =>
      destruct (read a b c d) as [[?u ?buffer] ?n]
  end.

Ltac destruct_read_result :=
  match goal with
  | |- context [if negb ?b then _ else _] => destruct b
  end; cbn [negb].

(** The loop never produces the invalid-argument code: the range of [mtu]
    is not looked at again once the loop has been entered. *)
Lemma send_loop_not_inval (fuel : nat) (totalsize mtu : Z) :
  forall (count : Z) (w : world U),
    fst (fst (send_loop U read fuel totalsize mtu count w))
    <> Some CSP_ERR_INVAL.
Proof.
  induction fuel as [ | fuel IH]; intros count w; cbn [send_loop];
    destruct (count <? totalsize); cbn [fst]; try discriminate.
  unfold csp_buffer_get.
  destruct (pool (buffer_gets w)) as [packet | ]; [ | discriminate ].
  cbv zeta. destruct_read.
  destruct_read_result; cbn [fst]; [ apply IH | discriminate ].
Qed.

(** With an [mtu] in range the call is the loop, started at [count = 0]. *)
Lemma csp_sfp_send_valid_mtu (fuel : nat) (w : world U) (totalsize mtu : Z) :
  0 < mtu <= CSP_BUFFER_SIZE - sizeof_sfp_header_t ->
  csp_sfp_send U read fuel w totalsize mtu
  = send_loop U read fuel totalsize mtu 0 w.
Proof.
  intros H. unfold csp_sfp_send.
  destruct (Z.eqb_spec mtu 0) as [E | _]; [ lia | ].
  destruct (Z.gtb_spec mtu (CSP_BUFFER_SIZE - sizeof_sfp_header_t))
    as [G | _]; [ lia | reflexivity ].
Qed.

(** C5: [csp_sfp_send] returns [CSP_ERR_INVAL] exactly when [mtu] is 0 or
    exceeds the data capacity minus the trailer size.  In that case it
    returns at once: the state is the one it was called in, so no buffer was
    taken from the pool and nothing was sent.  For any other [mtu] the call
    is the loop, which never returns [CSP_ERR_INVAL] itself: the test is made
    once, before the first fragment. *)
Theorem csp_sfp_send_mtu_check
    (fuel : nat) (w : world U) (totalsize mtu : Z) :
  sizeof_sfp_header_t <= CSP_BUFFER_SIZE ->
  (fst (fst (csp_sfp_send U read fuel w totalsize mtu)) = Some CSP_ERR_INVAL
   <-> (mtu = 0 \/ mtu > CSP_BUFFER_SIZE - sizeof_sfp_header_t)) /\
  (mtu = 0 \/ mtu > CSP_BUFFER_SIZE - sizeof_sfp_header_t ->
   csp_sfp_send U read fuel w totalsize mtu = (Some CSP_ERR_INVAL, 0, w)) /\
  (~ (mtu = 0 \/ mtu > CSP_BUFFER_SIZE - sizeof_sfp_header_t) ->
   csp_sfp_send U read fuel w totalsize mtu
   = send_loop U read fuel totalsize mtu 0 w).
Proof.
  intros _. unfold csp_sfp_send.
  destruct (Z.eqb_spec mtu 0) as [E | E];
    destruct (Z.gtb_spec mtu (CSP_BUFFER_SIZE - sizeof_sfp_header_t))
      as [G | G]; cbn [orb fst].
  1-3: split; [ split; [ intros _; lia | reflexivity ]
              | split; [ reflexivity | intros C; exfalso; apply C; lia ] ].
  split; [ split; [ intros C; exfalso; revert C; apply send_loop_not_inval
                  | intros [C | C]; lia ]
         | split; [ intros [C | C]; lia | reflexivity ] ].
Qed.

(** What the loop does to the connection: it only appends to the transmit
    queue, every packet it appends carries the fragment flag, and the
    outgoing flags are the initial ones with the fragment flag OR-ed in as
    soon as one fragment went out. *)
Lemma send_loop_connection (fuel : nat) (totalsize mtu : Z) :
  0 <= CSP_FFRAG < 2 ^ 8 ->
  forall (count : Z) (w : world U),
    let w' := snd (send_loop U read fuel totalsize mtu count w) in
    exists sent,
      tx (conn w') = tx (conn w) ++ sent /\
      rx (conn w') = rx (conn w) /\
      Forall (fun p => Z.land (pkt_id_flags p) CSP_FFRAG = CSP_FFRAG) sent /\
      idout_flags (conn w') =
        match sent with
        | [] => idout_flags (conn w)
        | _ :: _ => uint8_t (Z.lor (idout_flags (conn w)) CSP_FFRAG)
        end.
Proof.
  intros HF.
  induction fuel as [ | fuel IH]; intros count w; cbn [send_loop];
    destruct (count <? totalsize); cbn [snd];
    try (exists []; rewrite app_nil_r; repeat split; constructor).
  unfold csp_buffer_get.
  destruct (pool (buffer_gets w)) as [packet | ];
    [ | cbn [snd conn]; exists []; rewrite app_nil_r; repeat split; constructor ].
  cbv zeta. destruct_read.
  destruct_read_result;
    [ | cbn [snd conn csp_buffer_free set_user]; exists [];
        rewrite app_nil_r; repeat split; constructor ].
  unfold csp_sfp_header_add. cbv beta iota zeta.
  match goal with
  | |- context [send_loop U read fuel totalsize mtu ?c ?w1] =>
      destruct (IH c w1) as (sent & Htx & Hrx & Hall & Hfl);
      set (r := send_loop U read fuel totalsize mtu c w1) in *
  end.
  cbn [csp_send set_conn set_user conn tx rx idout_flags set_id_flags
       csp_sfp_header_add fst snd] in Htx, Hrx, Hfl.
  eexists (_ :: sent). rewrite Htx, Hrx, <- app_assoc.
  split; [ reflexivity | ]. split; [ reflexivity | ].
  split.
  - constructor; [ | exact Hall ].
    cbn [pkt_id_flags]. apply land_uint8_lor. exact HF.
  - rewrite Hfl. destruct sent; [ reflexivity | apply uint8_lor_idem ].
Qed.

(** C9: every pass of the loop ORs [CSP_FFRAG] into [conn->idout.flags] and
    nothing clears it.  A call that sent nothing leaves the outgoing flags
    as they were; after a call that sent at least one fragment they are the
    initial ones with the flag added, every fragment queued by the call
    carries the flag, and so does any packet handed to [csp_send] on that
    connection afterwards. *)
Theorem csp_sfp_send_sets_fragment_flag
    (fuel : nat) (w : world U) (totalsize mtu : Z) :
  0 <= CSP_FFRAG < 2 ^ 8 ->
  let w' := snd (csp_sfp_send U read fuel w totalsize mtu) in
  exists sent,
    tx (conn w') = tx (conn w) ++ sent /\
    Forall (fun p => Z.land (pkt_id_flags p) CSP_FFRAG = CSP_FFRAG) sent /\
    (sent = [] -> idout_flags (conn w') = idout_flags (conn w)) /\
    (sent <> [] ->
     idout_flags (conn w') = uint8_t (Z.lor (idout_flags (conn w)) CSP_FFRAG) /\
     Z.land (idout_flags (conn w')) CSP_FFRAG = CSP_FFRAG /\
     forall later : csp_packet_t,
       exists q,
         tx (conn (csp_send w' later)) = tx (conn w') ++ [q] /\
         pkt_data q = pkt_data later /\
         Z.land (pkt_id_flags q) CSP_FFRAG = CSP_FFRAG).
Proof.
  intros HF w'. unfold w', csp_sfp_send.
  destruct ((mtu =? 0) || (mtu >? CSP_BUFFER_SIZE - sizeof_sfp_header_t)).
  { cbn [snd]. exists []. rewrite app_nil_r.
    split; [ reflexivity | ]. split; [ constructor | ].
    split; [ reflexivity | intros C; contradiction ]. }
  destruct (send_loop_connection fuel totalsize mtu HF 0 w)
    as (sent & Htx & _ & Hall & Hfl).
  exists sent. split; [ exact Htx | ]. split; [ exact Hall | ].
  split; [ intros ->; exact Hfl | ].
  intros Hne. destruct sent as [ | p sent]; [ contradiction | ].
  assert (Hset : Z.land (idout_flags (conn (snd (send_loop U read fuel totalsize mtu 0 w))))
                   CSP_FFRAG = CSP_FFRAG).
  { rewrite Hfl. apply land_uint8_lor. exact HF. }
  split; [ exact Hfl | ]. split; [ exact Hset | ].
  intros later. eexists. cbn [csp_send set_conn conn tx].
  split; [ reflexivity | ]. split; [ reflexivity | exact Hset ].
Qed.

(** *** Transfers of 64 KiB and more *)

(** The sending size is computed in a [uint16_t]: what it holds is the
    remaining byte count modulo 2^16, capped by [mtu].  While 2^16 bytes or
    more remain, a pass therefore never takes the remainder below 2^16. *)
Lemma sending_size_large (totalsize mtu count : Z) :
  totalsize < 2 ^ 32 -> 0 < mtu ->
  0 <= count <= totalsize - 2 ^ 16 ->
  let size := uint16_t (uint32_t (totalsize - count)) in
  let size := if size >? mtu then uint16_t mtu else size in
  0 <= size /\
  uint32_t (count + size) = count + size /\
  count + size <= totalsize - 2 ^ 16.
Proof.
  intros Ht Hm Hc. cbv zeta.
  rewrite (uint32_t_small (totalsize - count)) by lia.
  pose proof (uint16_t_range (totalsize - count)) as Hr.
  assert (Hq : 1 <= (totalsize - count) / 2 ^ 16)
    by (apply Z.div_le_lower_bound; lia).
  pose proof (Z.div_mod (totalsize - count) (2 ^ 16)) as Hdm.
  unfold uint16_t in *.
  set (m := (totalsize - count) mod 2 ^ 16) in *.
  set (q := (totalsize - count) / 2 ^ 16) in *.
  assert (Hle : count + m <= totalsize - 2 ^ 16) by lia.
  destruct (Z.gtb_spec m mtu) as [G | G].
  - rewrite (Z.mod_small mtu) by lia.
    split; [ lia | ]. split; [ apply uint32_t_small | ]; lia.
  - split; [ lia | ]. split; [ apply uint32_t_small | ]; lia.
Qed.

(** So the loop condition never becomes false: whatever the fuel, the loop
    is still running when it is spent. *)
Lemma send_loop_large (totalsize mtu : Z) :
  totalsize < 2 ^ 32 -> 0 < mtu ->
  (forall n, pool n <> None) ->
  (forall u buffer off size, snd (read u buffer off size) = size) ->
  forall (fuel : nat) (count : Z) (w : world U),
    0 <= count <= totalsize - 2 ^ 16 ->
    fst (fst (send_loop U read fuel totalsize mtu count w)) = None /\
    snd (fst (send_loop U read fuel totalsize mtu count w))
    <= totalsize - 2 ^ 16.
Proof.
  intros Ht Hm Hpool Hread.
  induction fuel as [ | fuel IH]; intros count w Hc; cbn [send_loop];
    (destruct (Z.ltb_spec count totalsize) as [_ | C]; [ | lia ]).
  - cbn [fst snd]. split; [ reflexivity | lia ].
  - unfold csp_buffer_get.
    destruct (pool (buffer_gets w)) as [packet | ] eqn:Hp;
      [ | exfalso; exact (Hpool _ Hp) ].
    destruct (sending_size_large totalsize mtu count Ht Hm Hc)
      as (S0 & S1 & S2).
    cbv zeta in S0, S1, S2 |- *.
    set (size := if uint16_t (uint32_t (totalsize - count)) >? mtu
                 then uint16_t mtu
                 else uint16_t (uint32_t (totalsize - count))) in *.
    cbn [user].
    pose proof (Hread (user w) (pkt_data packet) count size) as Hn.
    destruct (read (user w) (pkt_data packet) count size) as [[u buffer] n].
    cbn [snd] in Hn. subst n.
    rewrite Z.eqb_refl. cbn [negb].
    unfold csp_sfp_header_add. cbv beta iota zeta.
    rewrite S1. apply IH. lia.
Qed.

(** C3, checked on the code for transfers of 64 KiB and more: with a valid
    [mtu], a pool that never runs dry and a source that always returns the
    size it was asked for, [csp_sfp_send] does not return within any number
    of passes, and its [count] stays at least 2^16 short of [totalsize]. *)
Theorem csp_sfp_send_large_never_returns
    (fuel : nat) (w : world U) (totalsize mtu : Z) :
  2 ^ 16 <= totalsize < 2 ^ 32 ->
  0 < mtu <= CSP_BUFFER_SIZE - sizeof_sfp_header_t ->
  (forall n, pool n <> None) ->
  (forall u buffer off size, snd (read u buffer off size) = size) ->
  fst (fst (csp_sfp_send U read fuel w totalsize mtu)) = None /\
  snd (fst (csp_sfp_send U read fuel w totalsize mtu)) <= totalsize - 2 ^ 16.
Proof.
  intros Ht Hm Hpool Hread.
  rewrite csp_sfp_send_valid_mtu by exact Hm.
  apply send_loop_large; try assumption; lia.
Qed.

(** *** Transfers below 64 KiB *)

Section SmallTransfers.

Variable blob : list byte.
Variables total mtu : Z.

Hypothesis capacity_fits_length : CSP_BUFFER_SIZE < 2 ^ 16.
Hypothesis flag_fits : 0 < CSP_FFRAG < 2 ^ 8.
Hypothesis mtu_valid : 0 < mtu <= CSP_BUFFER_SIZE - sizeof_sfp_header_t.
Hypothesis total_small : total < 2 ^ 16.
Hypothesis blob_size : Z.of_nat (length blob) = total.
Hypothesis pool_never_empty :
  forall n, exists p,
    pool n = Some p /\ Z.of_nat (length (pkt_data p)) = CSP_BUFFER_SIZE.
Hypothesis read_contract : reads_blob blob U read.

(** One pass of the loop sends the fragment for the next
    [min (total - count) mtu] bytes and advances [count] by as much. *)
Lemma send_loop_step (fuel : nat) (count : Z) (w : world U) :
  0 <= count < total ->
  exists w1 p,
    send_loop U read (S fuel) total mtu count w
    = send_loop U read fuel total mtu
        (count + Z.min (total - count) mtu) w1 /\
    tx (conn w1) = tx (conn w) ++ [p] /\
    fragment_of blob total count (Z.min (total - count) mtu) p.
Proof.
  intros Hc. unfold sizeof_sfp_header_t in *.
  cbn [send_loop].
  rewrite (proj2 (Z.ltb_lt _ _) (proj2 Hc)).
  unfold csp_buffer_get.
  destruct (pool_never_empty (buffer_gets w)) as (pk & Hpk & Hlen).
  rewrite Hpk. cbv zeta.
  rewrite (uint32_t_small (total - count)) by lia.
  rewrite (uint16_t_small (total - count)) by lia.
  assert (Hsz : (if total - count >? mtu then uint16_t mtu
                 else total - count)
                = Z.min (total - count) mtu).
  { destruct (Z.gtb_spec (total - count) mtu).
    - rewrite uint16_t_small by lia. lia.
    - lia. }
  rewrite Hsz. set (size := Z.min (total - count) mtu).
  assert (Hsize : 0 < size <= mtu /\ count + size <= total)
    by (unfold size; lia).
  cbn [user]. unfold set_user at 1.
  destruct (read_contract (user w) (pkt_data pk) count size)
    as (R1 & R2 & R3); try lia.
  destruct (read (user w) (pkt_data pk) count size) as [[u buffer] n].
  cbn [fst snd] in R1, R2, R3. subst n.
  rewrite Z.eqb_refl. cbn [negb].
  unfold csp_sfp_header_add. cbv beta iota zeta.
  cbn [pkt_length pkt_data pkt_id_flags set_length set_data].
  unfold sizeof_sfp_header_t.
  rewrite (uint16_t_small (size + 8)) by lia.
  rewrite (uint32_t_small (count + size)) by lia.
  eexists. eexists. split; [ reflexivity | ].
  split; [ cbn [csp_send set_conn set_user conn tx]; reflexivity | ].
  unfold fragment_of, header_set_offset, header_set_totalsize.
  cbn [pkt_id_flags pkt_length pkt_data set_id_flags conn idout_flags].
  rewrite !host32_bytes_htobe32.
  assert (Lb : Z.of_nat (length buffer) = CSP_BUFFER_SIZE) by lia.
  assert (L1 : length (store (size + 4) (be32_bytes total) buffer)
               = length buffer) by apply length_store.
  split; [ apply land_uint8_lor; lia | ].
  split; [ reflexivity | ].
  cbn [pkt_data set_data].
  split; [ rewrite !length_store; exact Lb | ].
  split; [ | split ].
  - rewrite !load_store_other
      by (rewrite ?length_be32_bytes, ?L1; lia).
    exact R3.
  - rewrite <- (length_be32_bytes count) at 1.
    apply load_store_same; rewrite ?length_be32_bytes, ?L1; lia.
  - rewrite load_store_other
      by (rewrite ?length_be32_bytes, ?L1; lia).
    rewrite <- (length_be32_bytes total) at 1.
    apply load_store_same; rewrite ?length_be32_bytes; lia.
Qed.

(** With fuel for one pass per byte the loop runs to its end: it returns
    [CSP_ERR_NONE] with [count] equal to [total], having queued the
    fragments that cover the rest of the blob. *)
Lemma send_loop_small (fuel : nat) :
  forall (count : Z) (w : world U),
    0 <= count <= total ->
    total - count <= Z.of_nat fuel ->
    exists w' sent,
      send_loop U read fuel total mtu count w
      = (Some CSP_ERR_NONE, total, w') /\
      tx (conn w') = tx (conn w) ++ sent /\
      fragments blob total mtu count sent.
Proof.
  induction fuel as [ | fuel IH]; intros count w Hc Hfuel.
  - assert (count = total) by lia. subst count.
    cbn [send_loop]. rewrite Z.ltb_irrefl.
    exists w, []. rewrite app_nil_r.
    repeat split; constructor.
  - destruct (Z.eq_dec count total) as [E | E].
    + subst count. cbn [send_loop]. rewrite Z.ltb_irrefl.
      exists w, []. rewrite app_nil_r.
      repeat split; constructor.
    + destruct (send_loop_step fuel count w) as (w1 & p & Hstep & Htx & Hp);
        [ lia | ].
      destruct (IH (count + Z.min (total - count) mtu) w1)
        as (w' & sent & Hrun & Htx' & Hfr); [ lia | lia | ].
      exists w', (p :: sent).
      split; [ rewrite Hstep; exact Hrun | ].
      split; [ rewrite Htx', Htx, <- app_assoc; reflexivity | ].
      apply fragments_more; [ lia | exact Hp | exact Hfr ].
Qed.

(** A chain of fragments is empty exactly when nothing is left to cover. *)
Lemma fragments_nil_iff (count : Z) (sent : list csp_packet_t) :
  fragments blob total mtu count sent ->
  count <= total /\ (sent = [] <-> count = total).
Proof.
  intros H. inversion H as [ | c p ps Hlt Hp Hrest]; subst.
  - split; [ lia | split; reflexivity ].
  - split; [ lia | split; [ discriminate | lia ] ].
Qed.

(** What the trailer of a sent fragment reads as. *)
Lemma fragment_of_trailer (count size : Z) (p : csp_packet_t) :
  0 <= count <= total -> 0 <= size <= mtu ->
  fragment_of blob total count size p ->
  trailer_offset p = count /\ trailer_totalsize p = total.
Proof.
  unfold sizeof_sfp_header_t in *.
  intros Hc Hs (_ & Plen & Pcap & _ & Poff & Ptot).
  destruct (trailer_bytes_load p) as [T1 T2]; [ lia | ].
  unfold trailer_offset, trailer_totalsize.
  rewrite T1, T2, Plen.
  replace (size + 8 - 8) with size by lia.
  replace (size + 8 - 4) with (size + 4) by lia.
  rewrite Poff, Ptot, !be32_value_bytes.
  split; apply Z.mod_small; lia.
Qed.

(** The number of fragments in a chain and what each one carries: the
    [i]-th starts [i * mtu] bytes after the first, and all but the last
    have a payload of [mtu] bytes. *)
Lemma fragments_layout (count : Z) (sent : list csp_packet_t) :
  fragments blob total mtu count sent ->
  0 <= count ->
  Z.of_nat (length sent) = (total - count + mtu - 1) / mtu /\
  forall (i : nat) (p : csp_packet_t),
    nth_error sent i = Some p ->
    trailer_offset p = count + Z.of_nat i * mtu /\
    trailer_totalsize p = total /\
    pkt_length p - sizeof_sfp_header_t
    = Z.min (total - (count + Z.of_nat i * mtu)) mtu /\
    ((S i < length sent)%nat -> pkt_length p - sizeof_sfp_header_t = mtu).
Proof.
  unfold sizeof_sfp_header_t in *.
  induction 1 as [ | count p0 ps Hlt Hp Hrest IH]; intros Hc.
  - split.
    + cbn [length]. symmetry. apply Z.div_small. lia.
    + intros i p Hi. destruct i; discriminate Hi.
  - set (size := Z.min (total - count) mtu) in *.
    destruct (fragments_nil_iff _ _ Hrest) as [Hle Hnil].
    destruct IH as [IHlen IHnth]; [ lia | ].
    destruct (fragment_of_trailer count size p0) as [Toff Ttot];
      [ lia | unfold size; lia | exact Hp | ].
    assert (Plen : pkt_length p0 = size + 8) by apply Hp.
    split.
    + cbn [length]. rewrite Nat2Z.inj_succ, IHlen.
      destruct (Z.eq_dec (count + size) total) as [E | E].
      * rewrite E, Z.sub_diag.
        rewrite (Z.div_small (0 + mtu - 1)) by lia.
        change (Z.succ 0) with 1.
        apply (Z.div_unique _ _ 1 (total - count - 1)); lia.
      * assert (Hsz : size = mtu) by (unfold size in *; lia).
        replace (total - count + mtu - 1)
          with (total - (count + size) + mtu - 1 + 1 * mtu) by lia.
        rewrite Z.div_add by lia. lia.
    + intros i p Hi. destruct i as [ | i]; cbn [nth_error] in Hi.
      * injection Hi as <-. rewrite Toff, Ttot, Plen.
        replace (count + Z.of_nat 0 * mtu) with count by lia.
        repeat split; try lia.
        cbn [length]. intros Hmore.
        assert (Hps : ps <> [])
          by (destruct ps; [ cbn in Hmore; lia | discriminate ]).
        assert (Hnot : count + size <> total)
          by (intros C; apply Hps, Hnil, C).
        unfold size in *. lia.
      * assert (Hps : ps <> [])
          by (destruct ps; [ destruct i; discriminate Hi | discriminate ]).
        assert (Hnot : count + size <> total)
          by (intros C; apply Hps, Hnil, C).
        assert (Hsz : size = mtu) by (unfold size in *; lia).
        destruct (IHnth i p Hi) as (Ioff & Itot & Ilen & Ifull).
        rewrite Nat2Z.inj_succ.
        replace (count + Z.succ (Z.of_nat i) * mtu)
          with (count + size + Z.of_nat i * mtu) by lia.
        repeat split; try assumption.
        cbn [length]. intros Hmore. apply Ifull. lia.
Qed.

(** The receive loop, fed the fragments that cover the blob from [count]
    on, hands them to the recording sink one by one and completes. *)
Lemma recv_loop_fragments (count : Z) (sent : list csp_packet_t) :
  fragments blob total mtu count sent ->
  forall (p : csp_packet_t) (ps : list csp_packet_t),
    sent = p :: ps ->
    forall (datasize rd : Z) (w : world (list write_call)),
      0 <= count ->
      datasize = total \/ (datasize = 0 /\ count = 0) ->
      exists w' calls,
        recv_loop (list write_call) log_write p ps datasize count rd w
        = (CSP_ERR_NONE, total, [], w') /\
        user w' = user w ++ calls /\
        conn w' = conn w /\
        delivered_in_order count total calls /\
        concat (map wc_bytes calls)
        = load count (Z.to_nat (total - count)) blob.
Proof.
  unfold sizeof_sfp_header_t in *.
  induction 1 as [ | count p0 ps0 Hlt Hp Hrest IH];
    intros p ps Heq datasize rd w Hc Hds; [ discriminate | ].
  injection Heq as -> ->.
  set (size := Z.min (total - count) mtu) in *.
  assert (Hsize : 0 < size <= mtu /\ count + size <= total)
    by (unfold size; lia).
  destruct Hp as (Pflag & Plen & Pcap & Pdata & Poff & Ptot).
  (* the trailer decodes to (count, total) *)
  destruct (header_remove_flagged p) as (p' & Hdec & Dlen & _ & Dcap & Dpre);
    [ lia | lia | ].
  rewrite Plen in Hdec, Dlen, Dpre.
  replace (size + 8 - 8) with size in Hdec, Dlen, Dpre by lia.
  replace (size + 8 - 4) with (size + 4) in Hdec by lia.
  rewrite Poff, Ptot, !be32_value_bytes in Hdec.
  rewrite (Z.mod_small count), (Z.mod_small total) in Hdec by lia.
  destruct (Z.gtb_spec count total) as [C | _]; [ lia | ].
  assert (Het : expected_total datasize (mk_header count total)
                = total).
  { unfold expected_total. cbn [totalsize].
    destruct Hds as [-> | [-> _]]; [ | reflexivity ].
    destruct (Z.eqb_spec total 0); lia. }
  (* the pass over this fragment *)
  destruct (recv_fragment_accepted (list write_call) log_write
              p p' (mk_header count total) datasize count w Hdec)
    as (Rw & _ & Rf);
    [ reflexivity | lia | unfold sizeof_sfp_header_t; lia
    | rewrite Het; lia | ].
  cbn [offset totalsize log_write fst snd] in Rw, Rf.
  specialize (Rf eq_refl). cbv zeta in Rf.
  rewrite Het, Dlen in Rf. rewrite Dlen in Rw.
  rewrite (uint32_t_small (count + size)) in Rf by lia.
  set (c := mk_write_call (load 0 (Z.to_nat size) (pkt_data p'))
              count size total) in *.
  assert (Hcb : wc_bytes c = load count (Z.to_nat size) blob).
  { unfold c. cbn [wc_bytes]. rewrite Dpre by lia. exact Pdata. }
  assert (Hcl : wc_size c = Z.of_nat (length (wc_bytes c))).
  { unfold c. cbn [wc_size wc_bytes]. rewrite length_load; lia. }
  rewrite recv_loop_unfold.
  destruct (recv_fragment (list write_call) log_write p datasize count w)
    as [f w1].
  cbn [fst snd] in Rw, Rf. subst f w1.
  destruct (Z.geb_spec (count + size) total) as [Hend | Hmore].
  - (* the last fragment *)
    assert (Hps : ps = []).
    { inversion Hrest; [ reflexivity | lia ]. }
    subst ps. eexists. exists [c].
    split; [ reflexivity | ].
    split; [ reflexivity | ]. split; [ reflexivity | ].
    split; [ cbn [delivered_in_order]; unfold c at 1 2; cbn [wc_offset wc_totalsize]; auto | ].
    cbn [map concat]. rewrite app_nil_r, Hcb.
    f_equal. lia.
  - (* more to come *)
    destruct ps as [ | p2 ps2]; [ inversion Hrest; lia | ].
    destruct (IH p2 ps2 eq_refl total rd
                (csp_buffer_free (set_user w (user w ++ [c])) p'))
      as (w' & calls & Hrun & Huser & Hconn & Hord & Hbytes);
      [ lia | left; reflexivity | ].
    exists w', (c :: calls).
    split; [ exact Hrun | ].
    split; [ rewrite Huser; cbn [user csp_buffer_free set_user];
             rewrite <- app_assoc; reflexivity | ].
    split; [ rewrite Hconn; reflexivity | ].
    split.
    + cbn [delivered_in_order].
      split; [ reflexivity | ]. split; [ exact Hcl | ].
      split; [ reflexivity | ].
      unfold c at 1. cbn [wc_size]. exact Hord.
    + cbn [map concat]. rewrite Hcb, Hbytes.
      replace (Z.to_nat (total - count))
        with (Z.to_nat size + Z.to_nat (total - (count + size)))%nat
        by lia.
      rewrite load_app by lia.
      do 2 f_equal. lia.
Qed.

(** C1, as the code has it, for transfers of at least one byte and less
    than 64 KiB: [csp_sfp_send] returns [CSP_ERR_NONE], and
    [csp_sfp_recv_fp], reading the packets it queued in the order they were
    sent, returns [CSP_ERR_NONE] with [total] in its output parameter
    after handing the write capability the bytes of the blob, in order, in
    consecutive pieces. *)
Theorem csp_sfp_send_recv_roundtrip (fuel : nat) (ws : world U) :
  0 < total ->
  total <= Z.of_nat fuel ->
  tx (conn ws) = [] ->
  exists ws',
    csp_sfp_send U read fuel ws total mtu
    = (Some CSP_ERR_NONE, total, ws') /\
    forall (wr : world (list write_call)) (return_datasize timeout : Z),
      rx (conn wr) = tx (conn ws') ->
      exists wr' calls,
        csp_sfp_recv_fp (list write_call) log_write wr return_datasize
          timeout None
        = (CSP_ERR_NONE, total, wr') /\
        rx (conn wr') = [] /\
        user wr' = user wr ++ calls /\
        delivered_in_order 0 total calls /\
        concat (map wc_bytes calls) = blob.
Proof.
  intros Hpos Hfuel Htx.
  destruct (send_loop_small fuel 0 ws) as (ws' & sent & Hrun & Hsent & Hfr);
    [ lia | lia | ].
  rewrite Htx in Hsent. cbn [app] in Hsent.
  exists ws'. split.
  - rewrite csp_sfp_send_valid_mtu by exact mtu_valid. exact Hrun.
  - intros wr rd timeout Hrx.
    rewrite Hsent in Hrx.
    destruct sent as [ | p ps]; [ inversion Hfr; lia | ].
    destruct (recv_loop_fragments 0 (p :: ps) Hfr p ps eq_refl 0 0 wr)
      as (w' & calls & Hloop & Huser & Hconn & Hord & Hbytes);
      [ lia | right; split; reflexivity | ].
    unfold csp_sfp_recv_fp. rewrite Hrx. cbn [csp_read]. cbv zeta.
    rewrite Hloop.
    eexists. exists calls.
    split; [ reflexivity | ].
    split; [ reflexivity | ]. split; [ exact Huser | ].
    split; [ exact Hord | ].
    rewrite Hbytes. unfold load. cbn [Z.to_nat skipn].
    apply firstn_all2. lia.
Qed.

(** X1: below 64 KiB [csp_sfp_send] returns [CSP_ERR_NONE] with [count] equal
    to [totalsize] once it has fuel for one pass per byte; for 0 bytes it
    returns at once and queues nothing. *)
Theorem csp_sfp_send_small_terminates (fuel : nat) (ws : world U) :
  0 <= total ->
  total <= Z.of_nat fuel ->
  exists ws',
    csp_sfp_send U read fuel ws total mtu = (Some CSP_ERR_NONE, total, ws') /\
    (total = 0 -> ws' = ws).
Proof.
  intros Hpos Hfuel.
  destruct (send_loop_small fuel 0 ws) as (ws' & sent & Hrun & _ & _);
    [ lia | lia | ].
  exists ws'.
  split; [ rewrite csp_sfp_send_valid_mtu by exact mtu_valid; exact Hrun | ].
  intros E0. rewrite E0 in Hrun.
  destruct fuel; cbn [send_loop] in Hrun; rewrite Z.ltb_irrefl in Hrun;
    congruence.
Qed.

(** X2: below 64 KiB [csp_sfp_send] queues ceil(totalsize / mtu) fragments; the
    trailer of the [i]-th says offset [i * mtu] and [totalsize], its
    payload has [min (totalsize - i * mtu) mtu] bytes, and that is [mtu]
    for every fragment but the last. *)
Theorem csp_sfp_send_small_fragments (fuel : nat) (ws : world U) :
  0 < total ->
  total <= Z.of_nat fuel ->
  tx (conn ws) = [] ->
  exists ws',
    csp_sfp_send U read fuel ws total mtu = (Some CSP_ERR_NONE, total, ws') /\
    Z.of_nat (length (tx (conn ws'))) = (total + mtu - 1) / mtu /\
    forall (i : nat) (p : csp_packet_t),
      nth_error (tx (conn ws')) i = Some p ->
      trailer_offset p = Z.of_nat i * mtu /\
      trailer_totalsize p = total /\
      pkt_length p - sizeof_sfp_header_t
      = Z.min (total - Z.of_nat i * mtu) mtu /\
      ((S i < length (tx (conn ws')))%nat ->
       pkt_length p - sizeof_sfp_header_t = mtu).
Proof.
  intros Hpos Hfuel Htx.
  destruct (send_loop_small fuel 0 ws) as (ws' & sent & Hrun & Hsent & Hfr);
    [ lia | lia | ].
  rewrite Htx in Hsent. cbn [app] in Hsent.
  destruct (fragments_layout 0 sent Hfr) as [Hlen Hnth]; [ lia | ].
  exists ws'. split.
  - rewrite csp_sfp_send_valid_mtu by exact mtu_valid. exact Hrun.
  - rewrite Hsent. split.
    + rewrite Hlen. f_equal. lia.
    + intros i p Hi. destruct (Hnth i p Hi) as (A & B & C & D).
      rewrite A, C. repeat split; try assumption; f_equal; lia.
Qed.

End SmallTransfers.

End SendFacts.

(** ** The receive loop on arbitrary input *)

Section RecvAnyInput.

Variable W : Type.
Variable write : W -> list byte -> Z -> Z -> Z -> W * Z.

(** What a successful decode tells about the packet and the header. *)
Lemma header_remove_some (p p' : csp_packet_t) (h : sfp_header_t) :
  csp_sfp_header_remove p = (p', Some h) ->
  Z.land (pkt_id_flags p) CSP_FFRAG <> 0 /\
  sizeof_sfp_header_t <= pkt_length p /\
  pkt_length p' = pkt_length p - sizeof_sfp_header_t /\
  0 <= offset h <= totalsize h.
Proof.
  unfold csp_sfp_header_remove.
  destruct (Z.eqb_spec (Z.land (pkt_id_flags p) CSP_FFRAG) 0) as [E | E];
    [ discriminate | ].
  destruct (Z.ltb_spec (pkt_length p) sizeof_sfp_header_t) as [L | L];
    [ discriminate | ].
  cbv zeta.
  match goal with
  | |- context [if ?a >? ?b then _ else _] =>
      destruct (Z.gtb_spec a b) as [G | G]; [ discriminate | ]
  end.
  intros H. injection H as <- <-.
  cbn [offset totalsize pkt_length set_data set_length] in *.
  repeat split; try assumption.
  unfold header_get_offset, host32_value.
  destruct host_big_endian; apply le_combine_bound.
Qed.

(** Every way through the body of the loop frees the packet it was given
    once, as [csp_sfp_header_remove] left it, frees nothing else, and
    touches neither the connection nor the pool otherwise. *)
Lemma recv_fragment_world (packet : csp_packet_t) (datasize data_offset : Z)
    (w w' : world W) (f : flow) :
  recv_fragment W write packet datasize data_offset w = (f, w') ->
  conn w' = conn w /\
  buffer_gets w' = buffer_gets w /\
  buffer_frees w' = buffer_frees w ++ [fst (csp_sfp_header_remove packet)].
Proof.
  unfold recv_fragment.
  destruct (csp_sfp_header_remove packet) as [packet' [h | ]];
    [ | intros H; inversion H; repeat split ].
  cbv zeta. cbn [fst].
  destruct (write (user w) (pkt_data packet') data_offset
              (pkt_length packet') (totalsize h)) as [u n].
  repeat match goal with
         | |- context [if ?b then _ else _] => destruct b
         end;
    intros H; inversion H; repeat split.
Qed.

(** The loop takes its packets from the front of the queue, frees each one
    it takes (and the one it started with), reports nothing but success,
    [CSP_ERR_SFP] or the timeout, and the timeout only once the queue is
    empty. *)
Lemma recv_loop_consumes (pending : list csp_packet_t) :
  forall (packet : csp_packet_t) (datasize data_offset rd : Z) (w : world W),
    exists consumed,
      let r := recv_loop W write packet pending datasize data_offset rd w in
      pending = consumed ++ snd (fst r) /\
      conn (snd r) = conn w /\
      buffer_gets (snd r) = buffer_gets w /\
      buffer_frees (snd r)
      = buffer_frees w
        ++ map (fun p => fst (csp_sfp_header_remove p)) (packet :: consumed) /\
      (fst (fst (fst r)) = CSP_ERR_NONE \/
       fst (fst (fst r)) = CSP_ERR_SFP \/
       (fst (fst (fst r)) = CSP_ERR_TIMEDOUT /\ snd (fst r) = [])).
Proof.
  induction pending as [ | next pending IH];
    intros packet datasize data_offset rd w;
    rewrite recv_loop_unfold;
    destruct (recv_fragment W write packet datasize data_offset w)
      as [f w1] eqn:F;
    pose proof (recv_fragment_flow W write _ _ _ _ _ _ F) as Hf;
    destruct (recv_fragment_world _ _ _ _ _ _ F) as (Hc & Hg & Hfr);
    destruct f as [e | d | d off1]; cbn [fst snd].
  1-5: exists []; cbn [app map fst snd];
       (split; [ reflexivity | ]); (split; [ exact Hc | ]);
       (split; [ exact Hg | ]); (split; [ exact Hfr | ]);
       first [ left; reflexivity
             | right; left; exact Hf
             | right; right; split; reflexivity ].
  destruct (IH next d off1 rd w1) as (consumed & Hq & Hc' & Hg' & Hfr' & He).
  exists (next :: consumed). cbv zeta in *. cbn [app].
  split; [ f_equal; exact Hq | ].
  split; [ congruence | ]. split; [ congruence | ].
  split; [ | exact He ].
  rewrite Hfr', Hfr, <- app_assoc. reflexivity.
Qed.

(** X3: [csp_sfp_recv_fp] gives back to the pool exactly what it takes in:
    it consumes a front part of the receive queue, in order, and the
    packets it hands to [csp_buffer_free] are, in that order, the caller's
    first packet (when there is one) and the packets of that part, each
    once and each as [csp_sfp_header_remove] left it, on every return,
    error or not; nothing else is freed, no buffer is taken from the pool
    and the outgoing side of the connection is left as it was. *)
Theorem csp_sfp_recv_fp_frees_what_it_takes
    (w : world W) (return_datasize timeout : Z)
    (first_packet : option csp_packet_t) :
  let r := csp_sfp_recv_fp W write w return_datasize timeout first_packet in
  exists consumed,
    rx (conn w) = consumed ++ rx (conn (snd r)) /\
    buffer_frees (snd r)
    = buffer_frees w
      ++ map (fun p => fst (csp_sfp_header_remove p))
           match first_packet with
           | Some p => p :: consumed
           | None => consumed
           end /\
    buffer_gets (snd r) = buffer_gets w /\
    tx (conn (snd r)) = tx (conn w) /\
    idout_flags (conn (snd r)) = idout_flags (conn w).
Proof.
  unfold csp_sfp_recv_fp. cbv zeta.
  destruct first_packet as [p | ].
  - destruct (recv_loop_consumes (rx (conn w)) p 0 0 0 w)
      as (consumed & Hq & _ & Hg & Hfr & _).
    cbv zeta in *.
    destruct (recv_loop W write p (rx (conn w)) 0 0 0 w) as [[[e out] q] w1].
    cbn [fst snd set_conn conn rx tx idout_flags buffer_frees buffer_gets] in *.
    exists consumed. repeat split; assumption.
  - destruct (rx (conn w)) as [ | p q0] eqn:Hrx; cbn [csp_read].
    + exists []. cbn. rewrite app_nil_r. repeat split.
    + destruct (recv_loop_consumes q0 p 0 0 0 w)
        as (consumed & Hq & _ & Hg & Hfr & _).
      cbv zeta in *.
      destruct (recv_loop W write p q0 0 0 0 w) as [[[e out] q] w1].
      cbn [fst snd set_conn conn rx tx idout_flags buffer_frees buffer_gets]
        in *.
      exists (p :: consumed). cbn [app].
      repeat split; try assumption. f_equal; exact Hq.
Qed.

(** X4: [csp_sfp_recv_fp] returns [CSP_ERR_NONE], [CSP_ERR_SFP] or
    [CSP_ERR_TIMEDOUT] and nothing else, and it returns the timeout only
    when the receive queue has been read to its end: a packet that is
    pending is never answered with a timeout. *)
Theorem csp_sfp_recv_fp_error_codes
    (w : world W) (return_datasize timeout : Z)
    (first_packet : option csp_packet_t) :
  let r := csp_sfp_recv_fp W write w return_datasize timeout first_packet in
  (fst (fst r) = CSP_ERR_NONE \/ fst (fst r) = CSP_ERR_SFP \/
   fst (fst r) = CSP_ERR_TIMEDOUT) /\
  (fst (fst r) = CSP_ERR_TIMEDOUT -> rx (conn (snd r)) = []).
Proof.
  assert (G : forall p q,
    let r := recv_loop W write p q 0 0 0 w in
    (fst (fst (fst r)) = CSP_ERR_NONE \/ fst (fst (fst r)) = CSP_ERR_SFP \/
     fst (fst (fst r)) = CSP_ERR_TIMEDOUT) /\
    (fst (fst (fst r)) = CSP_ERR_TIMEDOUT -> snd (fst r) = [])).
  { intros p q. destruct (recv_loop_consumes q p 0 0 0 w) as (c & _ & _ & _ & _ & He).
    cbv zeta in *. destruct He as [He | [He | [He Hq]]].
    - split; [ auto | rewrite He; discriminate ].
    - split; [ auto | rewrite He; discriminate ].
    - split; [ auto | intros _; exact Hq ]. }
  unfold csp_sfp_recv_fp. cbv zeta.
  destruct first_packet as [p | ].
  - specialize (G p (rx (conn w))). cbv zeta in G.
    destruct (recv_loop W write p (rx (conn w)) 0 0 0 w) as [[[e out] q] w1].
    cbn [fst snd set_conn conn rx] in *. exact G.
  - destruct (rx (conn w)) as [ | p q0]; cbn [csp_read].
    + cbn [fst snd set_conn conn rx]. split; auto.
    + specialize (G p q0). cbv zeta in G.
      destruct (recv_loop W write p q0 0 0 0 w) as [[[e out] q] w1].
      cbn [fst snd set_conn conn rx] in *. exact G.
Qed.

(** The loop does not look at the connection: run in a state that differs
    in the connection only, it does the same and leaves that connection
    in place. *)
Lemma recv_fragment_set_conn (packet : csp_packet_t) (datasize data_offset : Z)
    (w : world W) (c : csp_conn_t) :
  recv_fragment W write packet datasize data_offset (set_conn w c)
  = (fst (recv_fragment W write packet datasize data_offset w),
     set_conn (snd (recv_fragment W write packet datasize data_offset w)) c).
Proof.
  unfold recv_fragment.
  destruct (csp_sfp_header_remove packet) as [packet' [h | ]];
    [ | reflexivity ].
  cbv zeta. cbn [user set_conn].
  destruct (write (user w) (pkt_data packet') data_offset
              (pkt_length packet') (totalsize h)) as [u n].
  repeat match goal with
         | |- context [if ?b then _ else _] => destruct b
         end; reflexivity.
Qed.

Lemma recv_loop_set_conn (pending : list csp_packet_t) (c : csp_conn_t) :
  forall (packet : csp_packet_t) (datasize data_offset rd : Z) (w : world W),
    recv_loop W write packet pending datasize data_offset rd (set_conn w c)
    = (fst (recv_loop W write packet pending datasize data_offset rd w),
       set_conn
         (snd (recv_loop W write packet pending datasize data_offset rd w))
         c).
Proof.
  induction pending as [ | next pending IH];
    intros packet datasize data_offset rd w;
    rewrite !recv_loop_unfold, recv_fragment_set_conn;
    destruct (recv_fragment W write packet datasize data_offset w)
      as [[e | d | d off1] w1]; cbn [fst snd]; try reflexivity.
  apply IH.
Qed.

(** X5: handing [csp_sfp_recv_fp] a first packet is the same as calling
    [csp_sfp_recv], with the same timeout, on the connection with that
    packet put at the front of its receive queue: the same error code, the
    same [datasize], the same calls of the write capability and the same
    final state; and neither depends on what the caller's [datasize]
    variable held, which the function overwrites on entry. *)
Theorem csp_sfp_recv_fp_first_packet
    (w : world W) (p : csp_packet_t) (rd1 rd2 timeout : Z) :
  csp_sfp_recv_fp W write w rd1 timeout (Some p)
  = csp_sfp_recv W write
      (set_conn w (mk_conn (idout_flags (conn w)) (tx (conn w))
                           (p :: rx (conn w))))
      rd2 timeout.
Proof.
  unfold csp_sfp_recv, csp_sfp_recv_fp. cbv zeta.
  cbn [conn set_conn rx tx idout_flags csp_read].
  rewrite recv_loop_set_conn.
  destruct (recv_loop W write p (rx (conn w)) 0 0 0 w) as [[[e out] q] w1].
  reflexivity.
Qed.

(** The decoded header of an in-bounds packet, in the words of the trailer
    layout. *)
Lemma header_remove_in_bounds (p : csp_packet_t) :
  packet_in_bounds p ->
  snd (csp_sfp_header_remove p) =
  if (Z.land (pkt_id_flags p) CSP_FFRAG =? 0)
     || (pkt_length p <? sizeof_sfp_header_t)
     || (trailer_offset p >? trailer_totalsize p)
  then None
  else Some (mk_header (trailer_offset p) (trailer_totalsize p)).
Proof.
  intros Hb. unfold packet_in_bounds in Hb.
  destruct (Z.eqb_spec (Z.land (pkt_id_flags p) CSP_FFRAG) 0) as [Hf | Hf].
  { unfold csp_sfp_header_remove.
    rewrite (proj2 (Z.eqb_eq _ _) Hf). reflexivity. }
  unfold sizeof_sfp_header_t.
  destruct (Z.ltb_spec (pkt_length p) 8) as [Hl | Hl].
  { unfold csp_sfp_header_remove, sizeof_sfp_header_t.
    rewrite (proj2 (Z.eqb_neq _ _) Hf), (proj2 (Z.ltb_lt _ _) Hl).
    reflexivity. }
  destruct (header_remove_flagged p Hf) as (p' & E & _); [ lia | ].
  destruct (trailer_bytes_load p) as [T1 T2]; [ lia | ].
  unfold trailer_offset, trailer_totalsize.
  rewrite E, T1, T2. cbn [snd orb].
  destruct (_ >? _); reflexivity.
Qed.

(** X6: a first packet that is not a fragment of a transfer is answered
    with [CSP_ERR_SFP] and nothing else happens: when it lacks the fragment
    flag, or is shorter than a trailer, or its trailer says an offset beyond
    the total size, or a total size of 0, the write capability is not
    called, [datasize] is 0 and the packets pending on the connection stay
    pending. *)
Theorem csp_sfp_recv_fp_rejects_first_packet
    (w : world W) (p : csp_packet_t) (return_datasize timeout : Z) :
  packet_in_bounds p ->
  Z.land (pkt_id_flags p) CSP_FFRAG = 0 \/
  pkt_length p < sizeof_sfp_header_t \/
  trailer_offset p > trailer_totalsize p \/
  trailer_totalsize p = 0 ->
  exists w',
    csp_sfp_recv_fp W write w return_datasize timeout (Some p)
    = (CSP_ERR_SFP, 0, w') /\
    user w' = user w /\
    conn w' = conn w.
Proof.
  intros Hb Hbad.
  pose proof (header_remove_in_bounds p Hb) as Hdec.
  assert (F : exists p',
    recv_fragment W write p 0 0 w
    = (Goto_error CSP_ERR_SFP, csp_buffer_free w p')).
  { unfold recv_fragment.
    destruct (csp_sfp_header_remove p) as [p' [h | ]]; cbn [snd] in Hdec;
      [ | exists p'; reflexivity ].
    exists p'.
    destruct (Z.eqb_spec (Z.land (pkt_id_flags p) CSP_FFRAG) 0) as [E1 | E1];
      [ discriminate Hdec | ].
    destruct (Z.ltb_spec (pkt_length p) sizeof_sfp_header_t) as [E2 | E2];
      [ discriminate Hdec | ].
    destruct (Z.gtb_spec (trailer_offset p) (trailer_totalsize p))
      as [E3 | E3]; [ discriminate Hdec | ].
    cbn [orb] in Hdec. injection Hdec as ->.
    cbn [offset totalsize].
    assert (E4 : trailer_totalsize p = 0) by (destruct Hbad as [? | [? | [? | ?]]]; lia).
    rewrite E4. cbn [Z.eqb].
    match goal with
    | |- context [if ?b then _ else _] => destruct b
    end; reflexivity. }
  destruct F as (p' & F).
  unfold csp_sfp_recv_fp. cbv zeta.
  rewrite recv_loop_unfold, F.
  eexists. split; [ reflexivity | ].
  destruct w as [[fl t r] g fr u]. split; reflexivity.
Qed.

(** Packets queued behind the one that ends the run are not looked at. *)
Lemma recv_loop_app (pending extra : list csp_packet_t) :
  forall (packet : csp_packet_t) (datasize data_offset rd : Z) (w : world W),
    fst (fst (fst (recv_loop W write packet pending
                     datasize data_offset rd w))) <> CSP_ERR_TIMEDOUT ->
    recv_loop W write packet (pending ++ extra) datasize data_offset rd w
    = let '(e, out, q, w') :=
        recv_loop W write packet pending datasize data_offset rd w in
      (e, out, q ++ extra, w').
Proof.
  induction pending as [ | next pending IH];
    intros packet datasize data_offset rd w;
    rewrite !recv_loop_unfold;
    destruct (recv_fragment W write packet datasize data_offset w)
      as [[e | d | d off1] w1]; cbn [fst snd app]; intros Hne;
    try reflexivity.
  - contradiction.
  - apply IH. exact Hne.
Qed.

(** X17: [csp_sfp_recv_fp] reads no further than the fragment that ends
    the transfer.  When a call returns success or [CSP_ERR_SFP], the same
    call on a connection that has more packets queued behind returns the
    same code and [datasize] after the same calls of the write capability,
    and leaves those packets pending, in order, for the next call. *)
Theorem csp_sfp_recv_fp_reads_no_further
    (w : world W) (extra : list csp_packet_t)
    (return_datasize timeout : Z) (first_packet : option csp_packet_t) :
  let r := csp_sfp_recv_fp W write w return_datasize timeout first_packet in
  fst (fst r) <> CSP_ERR_TIMEDOUT ->
  csp_sfp_recv_fp W write
    (set_conn w (mk_conn (idout_flags (conn w)) (tx (conn w))
                         (rx (conn w) ++ extra)))
    return_datasize timeout first_packet
  = (fst (fst r), snd (fst r),
     set_conn (snd r)
       (mk_conn (idout_flags (conn (snd r))) (tx (conn (snd r)))
                (rx (conn (snd r)) ++ extra))).
Proof.
  unfold csp_sfp_recv_fp. cbv zeta.
  cbn [conn set_conn rx tx idout_flags].
  destruct first_packet as [p | ].
  - rewrite recv_loop_set_conn.
    pose proof (recv_loop_app (rx (conn w)) extra p 0 0 0 w) as Happ.
    destruct (recv_loop W write p (rx (conn w)) 0 0 0 w)
      as [[[e out] q] w1]; cbn [fst snd] in *.
    intros Hne. rewrite (Happ Hne). reflexivity.
  - destruct (rx (conn w)) as [ | p q0]; cbn [csp_read app].
    + cbn [fst]. intros C. contradiction.
    + rewrite recv_loop_set_conn.
      pose proof (recv_loop_app q0 extra p 0 0 0 w) as Happ.
      destruct (recv_loop W write p q0 0 0 0 w)
        as [[[e out] q] w1]; cbn [fst snd] in *.
      intros Hne. rewrite (Happ Hne). reflexivity.
Qed.

End RecvAnyInput.

(** *** What reaches the sink *)

(** One pass of the loop over the recording sink: it ends in an error
    without a call, or makes one call at the running offset, of a size
    between 1 and the capacity left by the trailer, and goes on from the
    offset advanced by that size. *)
Lemma recv_fragment_recorded (packet : csp_packet_t) (datasize data_offset : Z)
    (w w1 : world (list write_call)) (f : flow) :
  recv_fragment (list write_call) log_write packet datasize data_offset w
  = (f, w1) ->
  match f with
  | Goto_error _ => user w1 = user w
  | Transfer_complete d =>
      exists c,
        user w1 = user w ++ [c] /\
        writes_contiguous data_offset [c] /\
        d <= uint32_t (data_offset + wc_size c) /\
        (datasize = 0 -> 0 < d) /\ (datasize <> 0 -> d = datasize)
  | Next_packet d off' =>
      exists c,
        user w1 = user w ++ [c] /\
        writes_contiguous data_offset [c] /\
        off' = uint32_t (data_offset + wc_size c) /\ off' < d /\
        (datasize = 0 -> 0 < d) /\ (datasize <> 0 -> d = datasize)
  end.
Proof.
  unfold recv_fragment.
  destruct (csp_sfp_header_remove packet) as [packet' [h | ]] eqn:Hdec;
    [ | intros H; inversion H; reflexivity ].
  destruct (header_remove_some _ _ _ Hdec) as (_ & Hlen8 & Hlen & Hoff).
  destruct (Z.eqb_spec (offset h) data_offset) as [E1 | E1];
    [ | intros H; inversion H; reflexivity ].
  destruct (Z.eqb_spec (pkt_length packet') 0) as [E2 | E2];
    [ intros H; inversion H; reflexivity | ].
  destruct (Z.gtb_spec (pkt_length packet')
              (CSP_BUFFER_SIZE - sizeof_sfp_header_t)) as [E3 | E3];
    [ intros H; inversion H; reflexivity | ].
  cbn [negb orb]. cbv zeta. unfold log_write.
  rewrite Z.eqb_refl. cbn [negb].
  set (c := mk_write_call
              (load 0 (Z.to_nat (pkt_length packet')) (pkt_data packet'))
              data_offset (pkt_length packet') (totalsize h)).
  assert (Hc : writes_contiguous data_offset [c]).
  { cbn [writes_contiguous]. unfold c. cbn [wc_offset wc_size wc_totalsize].
    repeat split; lia. }
  destruct (Z.eqb_spec datasize 0) as [E0 | E0];
    [ destruct (Z.eqb_spec (totalsize h) 0) as [E4 | E4];
      [ intros H; inversion H; reflexivity | ] | ];
    match goal with
    | |- context [if ?a >=? ?b then _ else _] =>
        destruct (Z.geb_spec a b) as [G | G]
    end;
    intros H; inversion H; subst f w1;
    exists c; cbn [user csp_buffer_free set_user];
    (split; [ reflexivity | ]); (split; [ exact Hc | ]);
    repeat split; try assumption; try lia;
    try (intros C; contradiction).
Qed.

(** The calls the loop makes, over the whole run. *)
Lemma recv_loop_recorded (pending : list csp_packet_t) :
  forall (packet : csp_packet_t) (datasize data_offset rd : Z)
         (w : world (list write_call)),
    exists calls,
      user (snd (recv_loop (list write_call) log_write packet pending
                   datasize data_offset rd w))
      = user w ++ calls /\
      writes_contiguous data_offset calls.
Proof.
  induction pending as [ | next pending IH];
    intros packet datasize data_offset rd w;
    rewrite recv_loop_unfold;
    destruct (recv_fragment (list write_call) log_write packet datasize
                data_offset w) as [f w1] eqn:F;
    pose proof (recv_fragment_recorded _ _ _ _ _ _ F) as Hf;
    destruct f as [e | d | d off1]; cbn [fst snd].
  1, 4: exists []; rewrite app_nil_r; split; [ exact Hf | exact I ].
  1, 3: destruct Hf as (c & Hu & Hc & _); exists [c]; split; assumption.
  - destruct Hf as (c & Hu & Hc & _). exists [c]. split; assumption.
  - destruct Hf as (c & Hu & Hc & Hoff & _).
    destruct (IH next d off1 rd w1) as (calls & Hu' & Hc').
    exists (c :: calls). rewrite Hu', Hu, <- app_assoc.
    split; [ reflexivity | ].
    cbn [writes_contiguous] in Hc |- *.
    destruct Hc as (A & B & C & _).
    split; [ exact A | ]. split; [ exact B | ]. split; [ exact C | ].
    rewrite <- Hoff. exact Hc'.
Qed.

(** X7: whatever packets arrive, the write capability is only ever called
    for consecutive pieces: the first call is at offset 0 and every other
    call at the previous offset plus the previous size (in 32-bit
    arithmetic); every call hands over at least one byte and at most the
    data capacity minus the trailer size, at an offset that is not beyond
    the total size it announces.  A gap, an overlap or an empty piece never
    reaches the sink. *)
Theorem csp_sfp_recv_fp_writes_contiguous
    (w : world (list write_call)) (return_datasize timeout : Z)
    (first_packet : option csp_packet_t) :
  sizeof_sfp_header_t <= CSP_BUFFER_SIZE ->
  exists calls,
    user (snd (csp_sfp_recv_fp (list write_call) log_write w
                 return_datasize timeout first_packet))
    = user w ++ calls /\
    writes_contiguous 0 calls.
Proof.
  intros _. unfold csp_sfp_recv_fp. cbv zeta.
  assert (G : forall p q,
    exists calls,
      user (snd (let '(error, rd, pending, w1) :=
                   recv_loop (list write_call) log_write p q 0 0 0 w in
                 (error, rd,
                  set_conn w1 (mk_conn (idout_flags (conn w)) (tx (conn w))
                                       pending))))
      = user w ++ calls /\
      writes_contiguous 0 calls).
  { intros p q. destruct (recv_loop_recorded q p 0 0 0 w) as (calls & Hu & Hc).
    exists calls.
    destruct (recv_loop (list write_call) log_write p q 0 0 0 w)
      as [[[e out] q'] w1].
    cbn [fst snd user set_conn] in *. split; assumption. }
  destruct first_packet as [p | ].
  - apply G.
  - destruct (rx (conn w)) as [ | p q0]; cbn [csp_read].
    + exists []. rewrite app_nil_r. split; [ reflexivity | exact I ].
    + apply G.
Qed.

(** The bytes handed over by a successful run, counted from the running
    offset. *)
Lemma recv_loop_delivered (pending : list csp_packet_t) :
  forall (packet : csp_packet_t) (datasize data_offset rd out : Z)
         (w w' : world (list write_call)) (q : list csp_packet_t),
    recv_loop (list write_call) log_write packet pending
      datasize data_offset rd w
    = (CSP_ERR_NONE, out, q, w') ->
    out + (CSP_BUFFER_SIZE - sizeof_sfp_header_t) <= 2 ^ 32 ->
    (datasize = 0 /\ data_offset = 0) \/ 0 <= data_offset < datasize ->
    exists calls,
      user w' = user w ++ calls /\
      out <= data_offset + delivered_bytes calls
          < out + (CSP_BUFFER_SIZE - sizeof_sfp_header_t).
Proof.
  unfold sizeof_sfp_header_t.
  induction pending as [ | next pending IH];
    intros packet datasize data_offset rd out w w' q Hrun Hout Hinv;
    rewrite recv_loop_unfold in Hrun;
    destruct (recv_fragment (list write_call) log_write packet datasize
                data_offset w) as [f w1] eqn:F;
    pose proof (recv_fragment_recorded _ _ _ _ _ _ F) as Hf;
    pose proof (recv_fragment_flow _ _ _ _ _ _ _ _ F) as Hflow;
    destruct f as [e | d | d off1].
  1, 4: injection Hrun as -> _ _ _; discriminate Hflow.
  1, 3: injection Hrun as <- _ <-;
        destruct Hf as (c & Hu & Hc & Hge & H0 & H1);
        cbn [writes_contiguous] in Hc; unfold sizeof_sfp_header_t in Hc;
        destruct Hc as (_ & Hs & _);
        exists [c]; split; [ exact Hu | ];
        cbn [delivered_bytes fold_right];
        assert (Hd : data_offset < d /\ 0 <= data_offset)
          by (destruct (Z.eq_dec datasize 0); [ specialize (H0 e); lia
                                              | specialize (H1 n); lia ]);
        rewrite uint32_t_small in Hge by lia; lia.
  - discriminate Hrun.
  - destruct Hf as (c & Hu & Hc & Hoff & Hlt & H0 & H1).
    cbn [writes_contiguous] in Hc. unfold sizeof_sfp_header_t in Hc.
    destruct Hc as (_ & Hs & _).
    destruct Hflow as (p' & h & _ & _ & Hdnz).
    (* the run ends with the total carried on from here *)
    destruct (recv_loop_return_datasize (list write_call) log_write
                pending next d off1 rd w1) as [_ Hret].
    rewrite Hrun in Hret. cbn [fst snd] in Hret.
    destruct (Hret eq_refl) as (p2 & h2 & _ & Hout2 & _).
    unfold expected_total in Hout2.
    rewrite (proj2 (Z.eqb_neq _ _) Hdnz) in Hout2. subst out.
    assert (Hd : data_offset < d /\ 0 <= data_offset)
      by (destruct (Z.eq_dec datasize 0); [ specialize (H0 e); lia
                                          | specialize (H1 n); lia ]).
    rewrite uint32_t_small in Hoff by lia.
    destruct (IH next d off1 rd d w1 w' q Hrun Hout) as (calls & Hu' & Hb);
      [ right; lia | ].
    exists (c :: calls). rewrite Hu', Hu, <- app_assoc.
    split; [ reflexivity | ].
    cbn [delivered_bytes fold_right]. fold (delivered_bytes calls). lia.
Qed.

(** X8: when [csp_sfp_recv_fp] returns [CSP_ERR_NONE], the write capability
    has been handed at least [datasize] bytes and fewer than [datasize]
    plus the largest payload: the loop stops at the first fragment that
    takes the running offset to the announced total or beyond, without
    comparing that fragment's length with what was left to receive, so the
    last piece may reach past the total.  (For totals so close to 2^32 that
    the 32-bit offset could wrap, nothing is said.) *)
Theorem csp_sfp_recv_fp_delivered_bytes
    (w : world (list write_call)) (return_datasize timeout : Z)
    (first_packet : option csp_packet_t) :
  sizeof_sfp_header_t <= CSP_BUFFER_SIZE ->
  let r := csp_sfp_recv_fp (list write_call) log_write w
             return_datasize timeout first_packet in
  fst (fst r) = CSP_ERR_NONE ->
  snd (fst r) + (CSP_BUFFER_SIZE - sizeof_sfp_header_t) <= 2 ^ 32 ->
  exists calls,
    user (snd r) = user w ++ calls /\
    snd (fst r) <= delivered_bytes calls
                < snd (fst r) + (CSP_BUFFER_SIZE - sizeof_sfp_header_t).
Proof.
  intros _. unfold csp_sfp_recv_fp. cbv zeta.
  assert (G : forall p q,
    let r := (let '(error, rd, pending, w1) :=
                recv_loop (list write_call) log_write p q 0 0 0 w in
              (error, rd,
               set_conn w1 (mk_conn (idout_flags (conn w)) (tx (conn w))
                                    pending))) in
    fst (fst r) = CSP_ERR_NONE ->
    snd (fst r) + (CSP_BUFFER_SIZE - sizeof_sfp_header_t) <= 2 ^ 32 ->
    exists calls,
      user (snd r) = user w ++ calls /\
      snd (fst r) <= delivered_bytes calls
                  < snd (fst r) + (CSP_BUFFER_SIZE - sizeof_sfp_header_t)).
  { intros p q.
    destruct (recv_loop (list write_call) log_write p q 0 0 0 w)
      as [[[e out] q'] w1] eqn:Hrun.
    cbn [fst snd user set_conn]. intros -> Hout.
    destruct (recv_loop_delivered q p 0 0 0 out w w1 q' Hrun Hout)
      as (calls & Hu & Hb); [ left; split; reflexivity | ].
    exists calls. split; [ exact Hu | lia ]. }
  destruct first_packet as [p | ].
  - apply G.
  - destruct (rx (conn w)) as [ | p q0]; cbn [csp_read].
    + cbn [fst]. discriminate.
    + apply G.
Qed.

(** ** The send loop with any pool and any source *)

Section SendAnyInput.

Variable U : Type.
Variable read : U -> list byte -> Z -> Z -> U * list byte * Z.

(** One more pass of the loop, in terms of its pieces. *)
Lemma send_loop_unfold (fuel : nat) (totalsize mtu count : Z) (w : world U) :
  send_loop U read (S fuel) totalsize mtu count w =
  if count <? totalsize then
    match pool (buffer_gets w) with
    | None => (Some CSP_ERR_NOMEM, count, snd (csp_buffer_get w))
    | Some packet =>
      let size := sending_size totalsize mtu count in
      let '(u, buffer, n) := read (user w) (pkt_data packet) count size in
      let w := set_user (snd (csp_buffer_get w)) u in
      let packet := set_data packet buffer in
      if negb (size =? n) then
        (Some CSP_ERR_SFP, count, csp_buffer_free w packet)
      else
        send_loop U read fuel totalsize mtu (uint32_t (count + size))
          (csp_send (set_fragment_flag w)
             (append_trailer (set_length packet size) totalsize count))
    end
  else (Some CSP_ERR_NONE, count, w).
Proof.
  cbn [send_loop]. unfold csp_buffer_get.
  destruct (count <? totalsize); [ | reflexivity ].
  destruct (pool (buffer_gets w)) as [packet | ]; reflexivity.
Qed.

(** The sending size never exceeds [mtu] nor what is left to send. *)
Lemma sending_size_bounds (totalsize mtu count : Z) :
  totalsize < 2 ^ 32 -> 0 < mtu -> 0 <= count <= totalsize ->
  0 <= sending_size totalsize mtu count <= mtu /\
  sending_size totalsize mtu count <= totalsize - count /\
  sending_size totalsize mtu count < 2 ^ 16 /\
  uint32_t (count + sending_size totalsize mtu count)
  = count + sending_size totalsize mtu count.
Proof.
  intros Ht Hm Hc. unfold sending_size. cbv zeta.
  rewrite (uint32_t_small (totalsize - count)) by lia.
  pose proof (uint16_t_range (totalsize - count)) as Hr.
  pose proof (uint16_t_range mtu) as Hrm.
  assert (Hle : uint16_t (totalsize - count) <= totalsize - count)
    by (unfold uint16_t; apply Z.mod_le; lia).
  assert (Hlm : uint16_t mtu <= mtu)
    by (unfold uint16_t; apply Z.mod_le; lia).
  destruct (Z.gtb_spec (uint16_t (totalsize - count)) mtu) as [G | G];
    (split; [ lia | ]); (split; [ lia | ]); (split; [ lia | ]);
    apply uint32_t_small; lia.
Qed.

(** Where the buffers go, pass after pass. *)
Lemma send_loop_buffers (fuel : nat) (totalsize mtu : Z) :
  forall (count : Z) (w : world U),
    let r := send_loop U read fuel totalsize mtu count w in
    exists sent,
      tx (conn (snd r)) = tx (conn w) ++ sent /\
      buffer_gets (snd r)
      = (buffer_gets w + length sent
         + match fst (fst r) with
           | Some CSP_ERR_NOMEM | Some CSP_ERR_SFP => 1
           | _ => 0
           end)%nat /\
      (fst (fst r) = Some CSP_ERR_NOMEM ->
       pool (Nat.pred (buffer_gets (snd r))) = None) /\
      (fst (fst r) = Some CSP_ERR_SFP ->
       exists packet u offset,
         pool (Nat.pred (buffer_gets (snd r))) = Some packet /\
         let size := sending_size totalsize mtu offset in
         let call := read u (pkt_data packet) offset size in
         snd call <> size /\
         buffer_frees (snd r)
         = buffer_frees w ++ [set_data packet (snd (fst call))]) /\
      (fst (fst r) <> Some CSP_ERR_SFP ->
       buffer_frees (snd r) = buffer_frees w).
Proof.
  induction fuel as [ | fuel IH]; intros count w.
  - cbn [send_loop]. destruct (count <? totalsize); cbn [fst snd];
      exists []; rewrite app_nil_r; cbn [length];
      repeat split; try lia; try discriminate.
  - rewrite send_loop_unfold.
    destruct (count <? totalsize);
      [ | cbn [fst snd]; exists []; rewrite app_nil_r; cbn [length];
          repeat split; try lia; discriminate ].
    destruct (pool (buffer_gets w)) as [packet | ] eqn:Hp.
    + cbv zeta.
      destruct (read (user w) (pkt_data packet) count
                  (sending_size totalsize mtu count)) as [[u buffer] n] eqn:Hr.
      destruct (Z.eqb_spec (sending_size totalsize mtu count) n) as [En | En];
        cbn [negb].
      * match goal with
        | |- context [send_loop U read fuel totalsize mtu ?c ?w1] =>
            destruct (IH c w1) as (sent & Htx & Hg & Hn & Hs & Hf);
            set (r := send_loop U read fuel totalsize mtu c w1) in *
        end.
        cbv zeta in *.
        cbn [csp_send set_fragment_flag set_conn set_user csp_buffer_get snd
             conn tx buffer_gets buffer_frees] in Htx, Hg, Hs, Hf.
        eexists (_ :: sent). rewrite Htx, <- app_assoc.
        split; [ reflexivity | ].
        split; [ rewrite Hg; cbn [length]; lia | ].
        split; [ exact Hn | ].
        split; assumption.
      * cbn [fst snd csp_buffer_free set_user csp_buffer_get conn
             buffer_gets buffer_frees Nat.pred].
        exists []. rewrite app_nil_r. cbn [length].
        split; [ reflexivity | ]. split; [ lia | ].
        split; [ discriminate | ].
        split; [ | intros C; congruence ].
        intros _. exists packet, (user w), count.
        split; [ exact Hp | ].
        rewrite Hr. cbn [fst snd]. split; [ congruence | reflexivity ].
    + cbn [fst snd csp_buffer_get conn buffer_gets buffer_frees Nat.pred].
      exists []. rewrite app_nil_r. cbn [length].
      split; [ reflexivity | ]. split; [ lia | ].
      split; [ intros _; exact Hp | ].
      split; [ discriminate | reflexivity ].
Qed.

(** X9: the buffers [csp_sfp_send] takes from the pool, counted and
    followed to the free list.  [csp_buffer_get] is called once for every
    fragment queued, and once more when the call ends in [CSP_ERR_NOMEM]
    (that request gave NULL) or in [CSP_ERR_SFP].  The only packet ever
    handed to [csp_buffer_free] is, on [CSP_ERR_SFP], the buffer of that
    last request, holding what the read of the wrong size left in it, and
    it is freed once; on every other return nothing is freed.  The fragments
    queued before an error stay queued. *)
Theorem csp_sfp_send_buffers
    (fuel : nat) (w : world U) (totalsize mtu : Z) :
  let r := csp_sfp_send U read fuel w totalsize mtu in
  exists sent,
    tx (conn (snd r)) = tx (conn w) ++ sent /\
    buffer_gets (snd r)
    = (buffer_gets w + length sent
       + match fst (fst r) with
         | Some CSP_ERR_NOMEM | Some CSP_ERR_SFP => 1
         | _ => 0
         end)%nat /\
    (fst (fst r) = Some CSP_ERR_NOMEM ->
     pool (Nat.pred (buffer_gets (snd r))) = None) /\
    (fst (fst r) = Some CSP_ERR_SFP ->
     exists packet u offset,
       pool (Nat.pred (buffer_gets (snd r))) = Some packet /\
       let size := sending_size totalsize mtu offset in
       let call := read u (pkt_data packet) offset size in
       snd call <> size /\
       buffer_frees (snd r)
       = buffer_frees w ++ [set_data packet (snd (fst call))]) /\
    (fst (fst r) <> Some CSP_ERR_SFP ->
     buffer_frees (snd r) = buffer_frees w).
Proof.
  unfold csp_sfp_send.
  destruct ((mtu =? 0) || (mtu >? CSP_BUFFER_SIZE - sizeof_sfp_header_t)).
  - cbn [fst snd]. exists []. rewrite app_nil_r. cbn [length].
    repeat split; try lia; discriminate.
  - apply send_loop_buffers.
Qed.

(** With 2^16 bytes or more left, the loop cannot end in success, whatever
    the pool and the source do. *)
Lemma send_loop_large_no_success (totalsize mtu : Z) :
  totalsize < 2 ^ 32 -> 0 < mtu ->
  forall (fuel : nat) (count : Z) (w : world U),
    0 <= count <= totalsize - 2 ^ 16 ->
    fst (fst (send_loop U read fuel totalsize mtu count w))
    <> Some CSP_ERR_NONE.
Proof.
  intros Ht Hm.
  induction fuel as [ | fuel IH]; intros count w Hc.
  - cbn [send_loop].
    destruct (Z.ltb_spec count totalsize) as [_ | C]; [ | lia ].
    discriminate.
  - rewrite send_loop_unfold.
    destruct (Z.ltb_spec count totalsize) as [_ | C]; [ | lia ].
    destruct (pool (buffer_gets w)) as [packet | ]; [ | discriminate ].
    cbv zeta.
    destruct (read (user w) (pkt_data packet) count
                (sending_size totalsize mtu count)) as [[u buffer] n].
    destruct (sending_size totalsize mtu count =? n); cbn [negb];
      [ | discriminate ].
    destruct (sending_size_large totalsize mtu count Ht Hm Hc)
      as (S0 & S1 & S2).
    fold (sending_size totalsize mtu count) in S0, S1, S2.
    rewrite S1. apply IH. lia.
Qed.

(** X10: a transfer of 64 KiB or more never succeeds.  For every
    [totalsize] from 2^16 on, whatever the [mtu], the pool and the read
    capability, [csp_sfp_send] does not return [CSP_ERR_NONE]: it returns an
    error or does not return. *)
Theorem csp_sfp_send_large_no_success
    (fuel : nat) (w : world U) (totalsize mtu : Z) :
  2 ^ 16 <= totalsize < 2 ^ 32 ->
  0 <= mtu ->
  fst (fst (csp_sfp_send U read fuel w totalsize mtu)) <> Some CSP_ERR_NONE.
Proof.
  intros Ht Hm. unfold csp_sfp_send.
  destruct (Z.eqb_spec mtu 0) as [E | E]; [ discriminate | ].
  destruct (mtu >? CSP_BUFFER_SIZE - sizeof_sfp_header_t);
    [ discriminate | ].
  cbn [orb]. apply send_loop_large_no_success; lia.
Qed.

(** The trailer bytes [append_trailer] leaves in memory are the big-endian
    ones, whatever the host. *)
Lemma append_trailer_bytes (packet : csp_packet_t) (totalsize count : Z) :
  append_trailer packet totalsize count
  = mk_packet (uint16_t (pkt_length packet + sizeof_sfp_header_t))
      (pkt_id_flags packet)
      (store (pkt_length packet) (be32_bytes count)
         (store (pkt_length packet + 4) (be32_bytes totalsize)
            (pkt_data packet))).
Proof.
  unfold append_trailer, csp_sfp_header_add, header_set_offset,
    header_set_totalsize.
  cbn [set_data set_length pkt_data pkt_length pkt_id_flags].
  rewrite !host32_bytes_htobe32. reflexivity.
Qed.

(** A trailer appended by the sender, read back by the receiver. *)
Lemma append_trailer_decodes (p : csp_packet_t) (flags totalsize count : Z) :
  Z.land flags CSP_FFRAG <> 0 ->
  0 <= pkt_length p ->
  pkt_length p + sizeof_sfp_header_t <= Z.of_nat (length (pkt_data p)) ->
  pkt_length p + sizeof_sfp_header_t < 2 ^ 16 ->
  0 <= count < 2 ^ 32 -> 0 <= totalsize < 2 ^ 32 ->
  exists p',
    csp_sfp_header_remove
      (set_id_flags (append_trailer p totalsize count) flags)
    = (p', if count >? totalsize then None
           else Some (mk_header count totalsize)) /\
    pkt_length p' = pkt_length p /\
    pkt_id_flags p' = flags /\
    length (pkt_data p') = length (pkt_data p) /\
    payload p' = payload p.
Proof.
  unfold sizeof_sfp_header_t. intros Hf Hn Hfit H16 Hc Ht.
  rewrite append_trailer_bytes. unfold sizeof_sfp_header_t.
  rewrite uint16_t_small by lia.
  set (n := pkt_length p) in *.
  set (d := pkt_data p) in *.
  set (d1 := store (n + 4) (be32_bytes totalsize) d).
  set (d2 := store n (be32_bytes count) d1).
  assert (L1 : length d1 = length d) by apply length_store.
  assert (L2 : length d2 = length d)
    by (unfold d2; rewrite length_store; exact L1).
  destruct (header_remove_flagged
              (set_id_flags (mk_packet (n + 8) (pkt_id_flags p) d2) flags))
    as (p' & Hdec & Dlen & Dfl & Dcap & Dpre).
  { exact Hf. }
  { cbn [set_id_flags pkt_length pkt_data]. lia. }
  cbn [set_id_flags pkt_length pkt_data pkt_id_flags] in Hdec, Dlen, Dfl,
    Dcap, Dpre.
  replace (n + 8 - 8) with n in Hdec, Dlen, Dpre by lia.
  replace (n + 8 - 4) with (n + 4) in Hdec by lia.
  assert (Eoff : load n 4 d2 = be32_bytes count).
  { unfold d2. rewrite <- (length_be32_bytes count) at 1.
    apply load_store_same; rewrite ?length_be32_bytes, ?L1; lia. }
  assert (Etot : load (n + 4) 4 d2 = be32_bytes totalsize).
  { unfold d2. rewrite load_store_other
      by (rewrite ?length_be32_bytes, ?L1; lia).
    unfold d1. rewrite <- (length_be32_bytes totalsize) at 1.
    apply load_store_same; rewrite ?length_be32_bytes; lia. }
  rewrite Eoff, Etot, !be32_value_bytes in Hdec.
  rewrite (Z.mod_small count), (Z.mod_small totalsize) in Hdec by lia.
  exists p'. split; [ exact Hdec | ].
  split; [ exact Dlen | ]. split; [ exact Dfl | ].
  split; [ rewrite Dcap; exact L2 | ].
  unfold payload. rewrite Dlen. fold n. fold d.
  change (firstn (Z.to_nat n) (pkt_data p'))
    with (load 0 (Z.to_nat n) (pkt_data p')).
  change (firstn (Z.to_nat n) d) with (load 0 (Z.to_nat n) d).
  rewrite Dpre by lia.
  unfold d2, d1.
  rewrite !load_store_other
    by (rewrite ?length_be32_bytes, ?length_store; fold d; lia).
  reflexivity.
Qed.

(** X11: the trailer round trip.  When the sender's "add SFP header" steps
    are applied to a flagged packet that has room for the trailer, with an
    offset that does not exceed the total size, [csp_sfp_header_remove]
    gives back that offset and that total size, the packet's length as it
    was and the payload bytes as they were, on a big-endian and on a
    little-endian host alike. *)
Theorem csp_sfp_header_add_remove
    (p : csp_packet_t) (totalsize count : Z) :
  Z.land (pkt_id_flags p) CSP_FFRAG <> 0 ->
  0 <= pkt_length p ->
  pkt_length p + sizeof_sfp_header_t <= Z.of_nat (length (pkt_data p)) ->
  pkt_length p + sizeof_sfp_header_t < 2 ^ 16 ->
  0 <= count <= totalsize -> totalsize < 2 ^ 32 ->
  exists p',
    csp_sfp_header_remove (append_trailer p totalsize count)
    = (p', Some (mk_header count totalsize)) /\
    pkt_length p' = pkt_length p /\
    payload p' = payload p.
Proof.
  intros Hf Hn Hfit H16 Hc Ht.
  destruct (append_trailer_decodes p (pkt_id_flags p) totalsize count)
    as (p' & Hdec & Dlen & _ & _ & Dpay); try assumption; try lia.
  destruct (Z.gtb_spec count totalsize) as [C | _]; [ lia | ].
  exists p'. split; [ | split; assumption ].
  rewrite <- Hdec. reflexivity.
Qed.

(** What the passes send, counted in payload bytes. *)
Lemma send_loop_payload (totalsize mtu : Z) :
  totalsize < 2 ^ 32 ->
  0 < mtu <= CSP_BUFFER_SIZE - sizeof_sfp_header_t ->
  CSP_BUFFER_SIZE < 2 ^ 16 ->
  forall (fuel : nat) (count : Z) (w : world U),
    0 <= count <= totalsize ->
    let r := send_loop U read fuel totalsize mtu count w in
    exists sent,
      tx (conn (snd r)) = tx (conn w) ++ sent /\
      snd (fst r) = count + payload_bytes sent /\
      snd (fst r) <= totalsize /\
      (fst (fst r) = Some CSP_ERR_NONE -> snd (fst r) = totalsize).
Proof.
  unfold sizeof_sfp_header_t. intros Ht Hm Hcap.
  induction fuel as [ | fuel IH]; intros count w Hc.
  - cbn [send_loop].
    destruct (Z.ltb_spec count totalsize); cbn [fst snd];
      exists []; rewrite app_nil_r; cbn [payload_bytes fold_right];
      repeat split; try lia; discriminate.
  - rewrite send_loop_unfold.
    destruct (Z.ltb_spec count totalsize);
      [ | cbn [fst snd]; exists []; rewrite app_nil_r;
          cbn [payload_bytes fold_right]; repeat split; try lia ].
    destruct (pool (buffer_gets w)) as [packet | ];
      [ | cbn [fst snd csp_buffer_get conn]; exists []; rewrite app_nil_r;
          cbn [payload_bytes fold_right]; repeat split; try lia;
          discriminate ].
    cbv zeta.
    destruct (sending_size_bounds totalsize mtu count)
      as (S0 & S1 & S2 & S3); [ lia | lia | lia | ].
    set (size := sending_size totalsize mtu count) in *.
    destruct (read (user w) (pkt_data packet) count size) as [[u buffer] n].
    destruct (size =? n); cbn [negb];
      [ | cbn [fst snd csp_buffer_free set_user csp_buffer_get conn];
          exists []; rewrite app_nil_r; cbn [payload_bytes fold_right];
          repeat split; try lia; discriminate ].
    rewrite S3.
    match goal with
    | |- context [send_loop U read fuel totalsize mtu ?c ?w1] =>
        destruct (IH c w1) as (sent & Htx & Hcnt & Hle & Hok); [ lia | ];
        set (r := send_loop U read fuel totalsize mtu c w1) in *
    end.
    cbv zeta in *.
    rewrite append_trailer_bytes in Htx.
    cbn [csp_send set_fragment_flag set_conn set_user csp_buffer_get snd
         conn tx set_length set_data set_id_flags pkt_length pkt_id_flags
         pkt_data] in Htx.
    unfold sizeof_sfp_header_t in Htx.
    rewrite (uint16_t_small (size + 8)) in Htx by lia.
    eexists (_ :: sent). rewrite Htx, <- app_assoc.
    split; [ reflexivity | ].
    split; [ | split; assumption ].
    rewrite Hcnt. cbn [payload_bytes fold_right pkt_length set_id_flags].
    fold (payload_bytes sent). unfold sizeof_sfp_header_t. lia.
Qed.

(** X12: what [csp_sfp_send] has sent when it returns.  The payloads of the
    fragments it queued add up to its [count], which never exceeds
    [totalsize]; when it returns [CSP_ERR_NONE] they add up to [totalsize]
    exactly, and when it returns an error the fragments queued so far stay
    queued and carry fewer bytes. *)
Theorem csp_sfp_send_payload_bytes
    (fuel : nat) (w : world U) (totalsize mtu : Z) :
  0 <= totalsize < 2 ^ 32 ->
  0 <= mtu ->
  sizeof_sfp_header_t <= CSP_BUFFER_SIZE < 2 ^ 16 ->
  let r := csp_sfp_send U read fuel w totalsize mtu in
  exists sent,
    tx (conn (snd r)) = tx (conn w) ++ sent /\
    payload_bytes sent = snd (fst r) /\
    payload_bytes sent <= totalsize /\
    (fst (fst r) = Some CSP_ERR_NONE -> payload_bytes sent = totalsize).
Proof.
  intros Ht Hm Hcap. unfold csp_sfp_send.
  destruct (Z.eqb_spec mtu 0) as [E | E];
    [ | destruct (Z.gtb_spec mtu (CSP_BUFFER_SIZE - sizeof_sfp_header_t))
          as [G | G] ]; cbn [orb fst snd].
  1, 2: exists []; rewrite app_nil_r; cbn [payload_bytes fold_right];
        repeat split; try lia; discriminate.
  destruct (send_loop_payload totalsize mtu) with (fuel := fuel)
    (count := 0) (w := w) as (sent & Htx & Hcnt & Hle & Hok); try lia.
  cbv zeta in *. exists sent.
  rewrite Hcnt in *. cbn [Z.add] in *.
  repeat split; assumption.
Qed.

(** Every packet a pass queues can be decoded. *)
Lemma send_loop_decodable (total mtu : Z) :
  total < 2 ^ 32 ->
  0 < mtu <= CSP_BUFFER_SIZE - sizeof_sfp_header_t ->
  CSP_BUFFER_SIZE < 2 ^ 16 ->
  0 < CSP_FFRAG < 2 ^ 8 ->
  (forall n p, pool n = Some p ->
     Z.of_nat (length (pkt_data p)) = CSP_BUFFER_SIZE) ->
  (forall u buffer off size,
     length (snd (fst (read u buffer off size))) = length buffer) ->
  forall (fuel : nat) (count : Z) (w : world U),
    0 <= count <= total ->
    exists sent,
      tx (conn (snd (send_loop U read fuel total mtu count w)))
      = tx (conn w) ++ sent /\
      Forall
        (fun p =>
           packet_in_bounds p /\
           exists p' h,
             csp_sfp_header_remove p = (p', Some h) /\
             totalsize h = total /\
             offset h + pkt_length p' <= total)
        sent.
Proof.
  unfold sizeof_sfp_header_t. intros Ht Hm Hcap Hflag Hpool Hread.
  induction fuel as [ | fuel IH]; intros count w Hc.
  - cbn [send_loop].
    destruct (count <? total); cbn [snd]; exists [];
      rewrite app_nil_r; split; [ reflexivity | constructor
                                | reflexivity | constructor ].
  - rewrite send_loop_unfold.
    destruct (count <? total);
      [ | cbn [snd]; exists []; rewrite app_nil_r;
          split; [ reflexivity | constructor ] ].
    destruct (pool (buffer_gets w)) as [packet | ] eqn:Hp;
      [ | cbn [snd csp_buffer_get conn]; exists []; rewrite app_nil_r;
          split; [ reflexivity | constructor ] ].
    cbv zeta.
    destruct (sending_size_bounds total mtu count)
      as (S0 & S1 & S2 & S3); [ lia | lia | lia | ].
    set (size := sending_size total mtu count) in *.
    pose proof (Hread (user w) (pkt_data packet) count size) as Hb.
    destruct (read (user w) (pkt_data packet) count size) as [[u buffer] n].
    cbn [fst snd] in Hb.
    destruct (size =? n); cbn [negb];
      [ | cbn [snd csp_buffer_free set_user csp_buffer_get conn];
          exists []; rewrite app_nil_r; split; [ reflexivity | constructor ] ].
    rewrite S3.
    match goal with
    | |- context [send_loop U read fuel total mtu ?c ?w1] =>
        destruct (IH c w1) as (sent & Htx & Hall); [ lia | ];
        set (r := send_loop U read fuel total mtu c w1) in *
    end.
    cbn [csp_send set_fragment_flag set_conn set_user csp_buffer_get snd
         conn tx idout_flags] in Htx.
    eexists (_ :: sent). rewrite Htx, <- app_assoc.
    split; [ reflexivity | ].
    constructor; [ | exact Hall ].
    pose proof (Hpool _ _ Hp) as Hlen.
    destruct (append_trailer_decodes
                (set_length (set_data packet buffer) size)
                (uint8_t (Z.lor (idout_flags (conn w)) CSP_FFRAG))
                total count)
      as (p' & Hdec & Dlen & _ & Dcap & _);
      cbn [set_length set_data pkt_length pkt_data];
      unfold sizeof_sfp_header_t; try lia.
    { rewrite land_uint8_lor by lia. lia. }
    destruct (Z.gtb_spec count total) as [C | _]; [ lia | ].
    cbn [set_length set_data pkt_length pkt_data] in Dlen, Dcap.
    split.
    + unfold packet_in_bounds. rewrite append_trailer_bytes.
      cbn [set_id_flags set_length set_data pkt_length pkt_data].
      unfold sizeof_sfp_header_t.
      rewrite uint16_t_small, !length_store by lia. lia.
    + exists p', (mk_header count total).
      split; [ exact Hdec | ].
      cbn [offset totalsize]. split; [ reflexivity | lia ].
Qed.

(** X13: every fragment [csp_sfp_send] queues is one the receiver can
    decode, whatever the bytes the source supplied and however the transfer
    ends.  With a valid [mtu], the trailer is written inside the packet's
    data array (the length stays within it), [csp_sfp_header_remove]
    accepts the packet, and the decoded trailer announces [totalsize] and
    places the payload inside the transfer (offset plus payload length does
    not exceed [totalsize]). *)
Theorem csp_sfp_send_fragments_decodable
    (fuel : nat) (w : world U) (total mtu : Z) :
  0 <= total < 2 ^ 32 ->
  0 <= mtu ->
  sizeof_sfp_header_t <= CSP_BUFFER_SIZE < 2 ^ 16 ->
  0 < CSP_FFRAG < 2 ^ 8 ->
  (forall n p, pool n = Some p ->
     Z.of_nat (length (pkt_data p)) = CSP_BUFFER_SIZE) ->
  (forall u buffer off size,
     length (snd (fst (read u buffer off size))) = length buffer) ->
  exists sent,
    tx (conn (snd (csp_sfp_send U read fuel w total mtu)))
    = tx (conn w) ++ sent /\
    Forall
      (fun p =>
         packet_in_bounds p /\
         exists p' h,
           csp_sfp_header_remove p = (p', Some h) /\
           totalsize h = total /\
           offset h + pkt_length p' <= total)
      sent.
Proof.
  intros Ht Hm Hcap Hflag Hpool Hread. unfold csp_sfp_send.
  destruct (Z.eqb_spec mtu 0) as [E | E];
    [ | destruct (Z.gtb_spec mtu (CSP_BUFFER_SIZE - sizeof_sfp_header_t))
          as [G | G] ]; cbn [orb snd].
  1, 2: exists []; rewrite app_nil_r; split; [ reflexivity | constructor ].
  apply send_loop_decodable; try assumption; lia.
Qed.

(** With a source that always returns the size asked for, the loop never
    ends in [CSP_ERR_SFP]. *)
Lemma send_loop_no_sfp (total mtu : Z) :
  (forall u buffer off size, snd (read u buffer off size) = size) ->
  forall (fuel : nat) (count : Z) (w : world U),
    fst (fst (send_loop U read fuel total mtu count w))
    <> Some CSP_ERR_SFP.
Proof.
  intros Hread.
  induction fuel as [ | fuel IH]; intros count w.
  - cbn [send_loop]. destruct (count <? total); discriminate.
  - rewrite send_loop_unfold.
    destruct (count <? total); [ | discriminate ].
    destruct (pool (buffer_gets w)) as [packet | ]; [ | discriminate ].
    cbv zeta.
    pose proof (Hread (user w) (pkt_data packet) count
                  (sending_size total mtu count)) as Hn.
    destruct (read (user w) (pkt_data packet) count
                (sending_size total mtu count)) as [[u buffer] n].
    cbn [snd] in Hn. subst n. rewrite Z.eqb_refl. cbn [negb].
    apply IH.
Qed.

(** X18: where the errors of [csp_sfp_send] come from.  It returns
    [CSP_ERR_SFP] only if the read capability returned another size than
    it was asked for, and [CSP_ERR_NOMEM] only if the pool gave NULL: with
    a source that always returns the size asked it never returns
    [CSP_ERR_SFP], and with a pool that never runs dry it never returns
    [CSP_ERR_NOMEM]. *)
Theorem csp_sfp_send_error_causes
    (fuel : nat) (w : world U) (total mtu : Z) :
  ((forall u buffer off size, snd (read u buffer off size) = size) ->
   fst (fst (csp_sfp_send U read fuel w total mtu)) <> Some CSP_ERR_SFP) /\
  ((forall n, pool n <> None) ->
   fst (fst (csp_sfp_send U read fuel w total mtu)) <> Some CSP_ERR_NOMEM).
Proof.
  unfold csp_sfp_send.
  destruct ((mtu =? 0) || (mtu >? CSP_BUFFER_SIZE - sizeof_sfp_header_t));
    [ split; intros _; discriminate | ].
  split.
  - intros Hread. apply send_loop_no_sfp. exact Hread.
  - intros Hpool C.
    destruct (send_loop_buffers fuel total mtu 0 w) as (sent & _ & _ & Hn & _).
    exact (Hpool _ (Hn C)).
Qed.

End SendAnyInput.

(** *** What the source is asked for *)

Section SendRecorded.

Variable U : Type.
Variable read : U -> list byte -> Z -> Z -> U * list byte * Z.

(** The calls the loop makes to a source that records them. *)
Lemma send_loop_recorded (total mtu : Z) :
  total < 2 ^ 32 -> 0 < mtu ->
  forall (fuel : nat) (count : Z) (w : world (U * list read_call)),
    0 <= count <= total ->
    let r := send_loop (U * list read_call) (recording_read read)
               fuel total mtu count w in
    exists calls,
      snd (user (snd r)) = snd (user w) ++ calls /\
      reads_contiguous count total mtu calls /\
      wrong_size_is_last calls /\
      (fst (fst r) = Some CSP_ERR_SFP <-> Exists wrong_size calls).
Proof.
  intros Ht Hm.
  assert (Hstop : forall (e : option csp_err) (u : list read_call) (count : Z),
            e <> Some CSP_ERR_SFP ->
            exists calls,
              u = u ++ calls /\
              reads_contiguous count total mtu calls /\
              wrong_size_is_last calls /\
              (e = Some CSP_ERR_SFP <-> Exists wrong_size calls)).
  { intros e u count He. exists []. rewrite app_nil_r.
    split; [ reflexivity | ]. split; [ exact I | ]. split; [ exact I | ].
    split; [ intros C; contradiction | intros C; inversion C ]. }
  induction fuel as [ | fuel IH]; intros count w Hc; cbv zeta.
  - cbn [send_loop].
    destruct (count <? total); cbn [fst snd]; apply Hstop; discriminate.
  - rewrite send_loop_unfold.
    destruct (count <? total);
      [ | cbn [fst snd]; apply Hstop; discriminate ].
    destruct (pool (buffer_gets w)) as [packet | ];
      [ | cbn [fst snd csp_buffer_get user]; apply Hstop; discriminate ].
    cbv zeta.
    destruct (sending_size_bounds total mtu count)
      as (S0 & S1 & S2 & S3); [ lia | lia | lia | ].
    set (size := sending_size total mtu count) in *.
    unfold recording_read.
    destruct (read (fst (user w)) (pkt_data packet) count size)
      as [[u buffer] n].
    assert (Hcall : reads_contiguous count total mtu
                      [mk_read_call count size n]).
    { cbn [reads_contiguous rc_offset rc_size]. repeat split; lia. }
    destruct (Z.eqb_spec size n) as [En | En]; cbn [negb].
    + rewrite S3.
      match goal with
      | |- context [send_loop _ _ fuel total mtu ?c ?w1] =>
          destruct (IH c w1) as (calls & Hu & Hcalls & Hlast & Hsfp);
            [ lia | ];
          set (r := send_loop _ _ fuel total mtu c w1) in *
      end.
      cbn [csp_send set_fragment_flag set_conn set_user csp_buffer_get snd
           user] in Hu.
      exists (mk_read_call count size n :: calls).
      rewrite Hu, <- app_assoc.
      split; [ reflexivity | ].
      split.
      { cbn [reads_contiguous rc_offset rc_size].
        repeat split; try lia. exact Hcalls. }
      split.
      { cbn [wrong_size_is_last]. split; [ | exact Hlast ].
        unfold wrong_size. cbn [rc_returned rc_size]. intros C. congruence. }
      rewrite Hsfp. split.
      * intros C. apply Exists_cons_tl. exact C.
      * intros C. inversion C as [c l Hw | c l Hw]; subst; [ | exact Hw ].
        unfold wrong_size in Hw. cbn [rc_returned rc_size] in Hw. congruence.
    + cbn [fst snd csp_buffer_free set_user csp_buffer_get user].
      exists [mk_read_call count size n].
      split; [ reflexivity | ]. split; [ exact Hcall | ].
      split; [ cbn [wrong_size_is_last]; split; [ reflexivity | exact I ] | ].
      split; [ | reflexivity ].
      intros _. apply Exists_cons_hd.
      unfold wrong_size. cbn [rc_returned rc_size]. congruence.
Qed.

(** X14: what [csp_sfp_send] asks of the read capability, and what it does
    with the answers.  The first call is for offset 0 and every further call
    for the offset where the previous one ended; no call asks for more than
    [mtu] bytes, and none reaches past [totalsize].  A call answered with
    another size than asked is the last call made, and the calls contain
    such an answer exactly when [CSP_ERR_SFP] is returned. *)
Theorem csp_sfp_send_read_calls
    (fuel : nat) (w : world (U * list read_call)) (total mtu : Z) :
  0 <= total < 2 ^ 32 ->
  0 <= mtu ->
  let r := csp_sfp_send (U * list read_call) (recording_read read)
             fuel w total mtu in
  exists calls,
    snd (user (snd r)) = snd (user w) ++ calls /\
    reads_contiguous 0 total mtu calls /\
    wrong_size_is_last calls /\
    (fst (fst r) = Some CSP_ERR_SFP <-> Exists wrong_size calls).
Proof.
  intros Ht Hm. unfold csp_sfp_send.
  destruct (Z.eqb_spec mtu 0) as [E | E];
    [ | destruct (mtu >? CSP_BUFFER_SIZE - sizeof_sfp_header_t) ];
    cbn [orb fst snd].
  1, 2: exists []; rewrite app_nil_r; split; [ reflexivity | ];
        (split; [ exact I | ]); (split; [ exact I | ]);
        split; [ discriminate | intros C; inversion C ].
  apply send_loop_recorded; lia.
Qed.

End SendRecorded.

(** ** The payload the decode leaves *)

(** X16: [csp_sfp_header_remove] takes exactly the last 8 bytes off the
    payload.  On a flagged packet that holds a trailer, the payload before
    the call is the payload after it followed by the trailer bytes: the
    conversion of the two fields in place, which rewrites the trailer in
    host order, touches no payload byte; this holds also when the call
    returns NULL because the offset exceeds the total size. *)
Theorem csp_sfp_header_remove_payload (p : csp_packet_t) :
  Z.land (pkt_id_flags p) CSP_FFRAG <> 0 ->
  sizeof_sfp_header_t <= pkt_length p <= Z.of_nat (length (pkt_data p)) ->
  payload p = payload (fst (csp_sfp_header_remove p)) ++ trailer_bytes p.
Proof.
  unfold sizeof_sfp_header_t. intros Hf Hlen.
  destruct (header_remove_flagged p Hf) as (p' & E & Dlen & _ & _ & Dpre);
    [ lia | ].
  rewrite E. cbn [fst].
  unfold trailer_bytes.
  assert (L : length (payload p) = Z.to_nat (pkt_length p))
    by (unfold payload; rewrite length_firstn; lia).
  rewrite L.
  assert (P' : payload p'
               = firstn (Z.to_nat (pkt_length p) - 8) (payload p)).
  { unfold payload at 1. rewrite Dlen.
    change (firstn (Z.to_nat (pkt_length p - 8)) (pkt_data p'))
      with (load 0 (Z.to_nat (pkt_length p - 8)) (pkt_data p')).
    rewrite Dpre by lia.
    unfold payload, load. cbn [Z.to_nat skipn].
    rewrite firstn_firstn. f_equal. lia. }
  rewrite P'. symmetry. apply firstn_skipn.
Qed.

End SFP.

(** * Host byte order *)

(** The loop of [csp_sfp_send] does the same on a big-endian and on a
    little-endian host. *)
Lemma send_loop_host_independent
    (CSP_FFRAG : Z) (pool : nat -> option csp_packet_t) (U : Type)
    (read : U -> list byte -> Z -> Z -> U * list byte * Z)
    (totalsize mtu : Z) (fuel : nat) :
  forall (count : Z) (w : world U),
    send_loop CSP_FFRAG true pool U read fuel totalsize mtu count w
    = send_loop CSP_FFRAG false pool U read fuel totalsize mtu count w.
Proof.
  induction fuel as [ | fuel IH]; intros count w; [ reflexivity | ].
  rewrite !send_loop_unfold.
  destruct (count <? totalsize); [ | reflexivity ].
  destruct (pool (buffer_gets w)) as [packet | ]; [ | reflexivity ].
  cbv zeta.
  destruct (read (user w) (pkt_data packet) count
              (sending_size totalsize mtu count)) as [[u buffer] n].
  destruct (sending_size totalsize mtu count =? n); cbn [negb];
    [ | reflexivity ].
  rewrite !append_trailer_bytes. apply IH.
Qed.

(** X15: what [csp_sfp_send] puts on the wire does not depend on the byte
    order of the host.  With the same pool, source and arguments, a
    big-endian and a little-endian sender return the same code and leave
    the same packets, byte for byte, in the same state: [htobe32] followed
    by the store through the header pointer always lays down the
    big-endian bytes. *)
Theorem csp_sfp_send_host_independent
    (CSP_BUFFER_SIZE CSP_FFRAG : Z) (pool : nat -> option csp_packet_t)
    (U : Type) (read : U -> list byte -> Z -> Z -> U * list byte * Z)
    (fuel : nat) (w : world U) (totalsize mtu : Z) :
  csp_sfp_send CSP_BUFFER_SIZE CSP_FFRAG true pool U read fuel w
    totalsize mtu
  = csp_sfp_send CSP_BUFFER_SIZE CSP_FFRAG false pool U read fuel w
      totalsize mtu.
Proof.
  unfold csp_sfp_send.
  destruct ((mtu =? 0) || (mtu >? CSP_BUFFER_SIZE - sizeof_sfp_header_t));
    [ reflexivity | apply send_loop_host_independent ].
Qed.

(** * The properties on the reference configuration *)

(** The side conditions of the reference configuration: its constants are
    in range, its pool never runs dry and its source serves its blob. *)
Ltac reference_configuration :=
  first
    [ apply blob_read_contract
    | intros ?n; exists fresh_packet; split; reflexivity
    | reflexivity
    | unfold reference_buffer_size, reference_ffrag, sizeof_sfp_header_t;
      lia ].

(** ** The trailer codec *)

Lemma csp_sfp_header_remove_decodes_witness :
  packet_in_bounds (fragment_packet ten_bytes 0 10) /\
  snd (csp_sfp_header_remove reference_ffrag false
         (fragment_packet ten_bytes 0 10))
  = Some (mk_header (trailer_offset (fragment_packet ten_bytes 0 10))
                    (trailer_totalsize (fragment_packet ten_bytes 0 10))).
Proof.
  assert (B : packet_in_bounds (fragment_packet ten_bytes 0 10)).
  { unfold packet_in_bounds. vm_compute. split; discriminate. }
  split; [ exact B | ].
  apply (proj2 (csp_sfp_header_remove_decodes reference_ffrag false
                  (fragment_packet ten_bytes 0 10) B)).
  vm_compute. discriminate.
Defined.

(** A flagged packet that is all trailer, with offset 1 and total size 0:
    the decode returns NULL, and the packet's length has gone from 8 to 0. *)
Lemma csp_sfp_header_remove_shrinks_rejected :
  pkt_length (fragment_packet [] 1 0) = 8 /\
  snd (csp_sfp_header_remove reference_ffrag false (fragment_packet [] 1 0))
  = None /\
  pkt_length
    (fst (csp_sfp_header_remove reference_ffrag false
            (fragment_packet [] 1 0)))
  = 0.
Proof. vm_compute. repeat split. Qed.

(** ** Receiving *)


(** A transfer announced as 10 bytes whose second fragment says 20, into a
    sink that has room for 6 bytes: the second call hands over the 6 bytes
    of that fragment at offset 4 with 20 as the total, is answered with 2,
    and [csp_sfp_recv] returns [CSP_ERR_SFP] with [datasize] 0. *)
Lemma csp_sfp_recv_fp_write_call_witness :
  let r := csp_sfp_recv_fp reference_buffer_size reference_ffrag false
             (list write_call) (bounded_write 6)
             (receiving_world
                [fragment_packet (firstn 4 ten_bytes) 0 10;
                 fragment_packet (skipn 4 ten_bytes) 4 20])
             0 1000 None in
  fst (fst r) = CSP_ERR_SFP /\
  snd (fst r) = 0 /\
  user (snd r) = [mk_write_call (firstn 4 ten_bytes) 0 4 10;
                  mk_write_call (skipn 4 ten_bytes) 4 6 20] /\
  rx (conn (snd r)) = [].
Proof.
  pose (w0 := receiving_world
                [fragment_packet (firstn 4 ten_bytes) 0 10;
                 fragment_packet (skipn 4 ten_bytes) 4 20]).
  pose (w1 := snd (recv_fragment reference_buffer_size reference_ffrag false
                     (list write_call) (bounded_write 6)
                     (fragment_packet (firstn 4 ten_bytes) 0 10) 0 0 w0)).
  destruct (csp_sfp_recv_fp_write_call
              reference_buffer_size reference_ffrag false
              (list write_call) (bounded_write 6)
              (fragment_packet (skipn 4 ten_bytes) 4 20)
              (fst (csp_sfp_header_remove reference_ffrag false
                      (fragment_packet (skipn 4 ten_bytes) 4 20)))
              (mk_header 4 20) [] 10 4 0 w1)
    as (_ & Hbad & _).
  1-6: vm_compute; first [ reflexivity | discriminate ].
  destruct Hbad as (_ & _ & Hcall); [ vm_compute; discriminate | ].
  fold w0. cbv zeta.
  rewrite (Hcall w0 None [fragment_packet (firstn 4 ten_bytes) 0 10] 1000);
    [ | reflexivity | vm_compute; reflexivity ].
  vm_compute. repeat split.
Defined.

(** A transfer announced as 10 bytes whose second fragment says 20: the call
    succeeds with 10 as the size, and the sink was told 10, then 20. *)
Lemma csp_sfp_recv_fp_write_total_varies :
  let r := csp_sfp_recv_fp reference_buffer_size reference_ffrag false
             (list write_call) log_write
             (receiving_world
                [fragment_packet (firstn 4 ten_bytes) 0 10;
                 fragment_packet (skipn 4 ten_bytes) 4 20])
             0 1000 None in
  fst (fst r) = CSP_ERR_NONE /\
  snd (fst r) = 10 /\
  map wc_totalsize (user (snd r)) = [10; 20] /\
  concat (map wc_bytes (user (snd r))) = ten_bytes.
Proof. vm_compute. repeat split. Qed.

(** ** Sending *)

(** With 256 bytes of packet data, an [mtu] of 249 is refused on the spot
    and one of 248 enters the loop. *)
Lemma csp_sfp_send_mtu_check_witness :
  csp_sfp_send reference_buffer_size reference_ffrag false fresh_pool
    unit (blob_read ten_bytes) 10 (idle_world tt) 10 249
  = (Some CSP_ERR_INVAL, 0, idle_world tt) /\
  csp_sfp_send reference_buffer_size reference_ffrag false fresh_pool
    unit (blob_read ten_bytes) 10 (idle_world tt) 10 248
  = send_loop reference_ffrag false fresh_pool
      unit (blob_read ten_bytes) 10 10 248 0 (idle_world tt).
Proof.
  assert (H : sizeof_sfp_header_t <= reference_buffer_size)
    by (vm_compute; discriminate).
  split.
  - apply (proj1 (proj2 (csp_sfp_send_mtu_check
                           reference_buffer_size reference_ffrag false
                           fresh_pool unit (blob_read ten_bytes)
                           10 (idle_world tt) 10 249 H))).
    right. reflexivity.
  - apply (proj2 (proj2 (csp_sfp_send_mtu_check
                           reference_buffer_size reference_ffrag false
                           fresh_pool unit (blob_read ten_bytes)
                           10 (idle_world tt) 10 248 H))).
    unfold reference_buffer_size, sizeof_sfp_header_t. lia.
Defined.

Lemma csp_sfp_send_sets_fragment_flag_witness :
  Z.land
    (idout_flags
       (conn (snd (csp_sfp_send reference_buffer_size reference_ffrag false
                     fresh_pool unit (blob_read ten_bytes) 10
                     (idle_world tt) 10 4))))
    reference_ffrag
  = reference_ffrag.
Proof.
  destruct (csp_sfp_send_sets_fragment_flag
              reference_buffer_size reference_ffrag false fresh_pool
              unit (blob_read ten_bytes) 10 (idle_world tt) 10 4)
    as (sent & Htx & _ & _ & Hkeep).
  - unfold reference_ffrag. lia.
  - destruct sent as [ | p sent].
    + vm_compute in Htx. discriminate Htx.
    + apply Hkeep. discriminate.
Defined.

Lemma csp_sfp_send_large_never_returns_witness :
  fst (fst (csp_sfp_send reference_buffer_size reference_ffrag false
              fresh_pool unit (blob_read blob_64k) 1000
              (idle_world tt) 65536 100))
  = None /\
  snd (fst (csp_sfp_send reference_buffer_size reference_ffrag false
              fresh_pool unit (blob_read blob_64k) 1000
              (idle_world tt) 65536 100))
  <= 65536 - 2 ^ 16.
Proof.
  apply (csp_sfp_send_large_never_returns
           reference_buffer_size reference_ffrag false fresh_pool
           unit (blob_read blob_64k) 1000 (idle_world tt) 65536 100).
  - lia.
  - unfold reference_buffer_size, sizeof_sfp_header_t. lia.
  - intros n. discriminate.
  - intros u buffer off size. reflexivity.
Defined.

(** With 65536 bytes to send, the 16-bit sending size of the first pass is
    0: the pass queues a packet that holds a trailer and no payload, and
    leaves [count] at 0. *)
Lemma send_loop_64k_step (blob : list byte) (fuel : nat) (w : world unit) :
  send_loop reference_ffrag false fresh_pool unit (blob_read blob)
    (S fuel) 65536 100 0 w
  = send_loop reference_ffrag false fresh_pool unit (blob_read blob)
      fuel 65536 100 0 (after_empty_fragment w).
Proof. destruct w as [[flags sent pending] gets frees []]. reflexivity. Qed.

Lemma send_loop_64k (blob : list byte) (fuel : nat) :
  forall w : world unit,
    exists w' sent,
      send_loop reference_ffrag false fresh_pool unit (blob_read blob)
        fuel 65536 100 0 w
      = (None, 0, w') /\
      tx (conn w') = tx (conn w) ++ sent /\
      length sent = fuel /\
      Forall (fun p => pkt_length p = sizeof_sfp_header_t /\
                       trailer_offset p = 0 /\
                       trailer_totalsize p = 65536) sent.
Proof.
  induction fuel as [ | fuel IH]; intros w.
  - exists w, []. rewrite app_nil_r. repeat split. constructor.
  - rewrite send_loop_64k_step.
    destruct (IH (after_empty_fragment w)) as (w' & sent & Hrun & Htx & Hlen & Hall).
    eexists w', (_ :: sent).
    split; [ exact Hrun | ].
    split; [ rewrite Htx; cbn [after_empty_fragment conn tx];
             rewrite <- app_assoc; reflexivity | ].
    split; [ cbn [length]; rewrite Hlen; reflexivity | ].
    constructor; [ | exact Hall ].
    repeat split.
Qed.

(** C2, checked on the code at [totalsize = 65536], [mtu = 100]: with a
    source that returns the size it is asked for, [csp_sfp_send] has not
    returned after any number of passes, each of which queued one fragment;
    every fragment has a payload of 0 bytes (its length is the trailer's)
    and says offset 0.  So more than ceil(65536 / 100) = 656 fragments go
    out, none of them with a payload of [mtu] bytes. *)
Theorem csp_sfp_send_64k_fragments (blob : list byte) (fuel : nat) :
  let s := csp_sfp_send reference_buffer_size reference_ffrag false
             fresh_pool unit (blob_read blob) fuel (idle_world tt)
             65536 100 in
  fst (fst s) = None /\
  snd (fst s) = 0 /\
  length (tx (conn (snd s))) = fuel /\
  Forall (fun p => pkt_length p = sizeof_sfp_header_t /\
                   trailer_offset p = 0 /\
                   trailer_totalsize p = 65536)
         (tx (conn (snd s))).
Proof.
  destruct (send_loop_64k blob fuel (idle_world tt))
    as (w' & sent & Hrun & Htx & Hlen & Hall).
  change (csp_sfp_send reference_buffer_size reference_ffrag false
            fresh_pool unit (blob_read blob) fuel (idle_world tt) 65536 100)
    with (send_loop reference_ffrag false fresh_pool unit (blob_read blob)
            fuel 65536 100 0 (idle_world tt)).
  cbv zeta. rewrite Hrun. cbn [fst snd]. rewrite Htx. cbn [idle_world conn tx app].
  repeat split; assumption.
Qed.

Lemma csp_sfp_send_small_terminates_witness :
  exists ws',
    csp_sfp_send reference_buffer_size reference_ffrag false fresh_pool
      unit (blob_read ten_bytes) 10 (idle_world tt) 10 4
    = (Some CSP_ERR_NONE, 10, ws') /\
    (10 = 0 -> ws' = idle_world tt).
Proof.
  apply (csp_sfp_send_small_terminates
           reference_buffer_size reference_ffrag false fresh_pool
           unit (blob_read ten_bytes) ten_bytes 10 4);
    reference_configuration.
Defined.

(** 10 bytes in chunks of 4: three fragments, at offsets 0, 4 and 8. *)
Lemma csp_sfp_send_small_fragments_witness :
  exists ws',
    csp_sfp_send reference_buffer_size reference_ffrag false fresh_pool
      unit (blob_read ten_bytes) 10 (idle_world tt) 10 4
    = (Some CSP_ERR_NONE, 10, ws') /\
    Z.of_nat (length (tx (conn ws'))) = (10 + 4 - 1) / 4 /\
    forall (i : nat) (p : csp_packet_t),
      nth_error (tx (conn ws')) i = Some p ->
      trailer_offset p = Z.of_nat i * 4 /\
      trailer_totalsize p = 10 /\
      pkt_length p - sizeof_sfp_header_t = Z.min (10 - Z.of_nat i * 4) 4 /\
      ((S i < length (tx (conn ws')))%nat ->
       pkt_length p - sizeof_sfp_header_t = 4).
Proof.
  apply (csp_sfp_send_small_fragments
           reference_buffer_size reference_ffrag false fresh_pool
           unit (blob_read ten_bytes) ten_bytes 10 4);
    reference_configuration.
Defined.

(** ** The round trip *)

Lemma csp_sfp_send_recv_roundtrip_witness :
  exists ws',
    csp_sfp_send reference_buffer_size reference_ffrag false fresh_pool
      unit (blob_read ten_bytes) 10 (idle_world tt) 10 4
    = (Some CSP_ERR_NONE, 10, ws') /\
    forall (wr : world (list write_call)) (return_datasize timeout : Z),
      rx (conn wr) = tx (conn ws') ->
      exists wr' calls,
        csp_sfp_recv_fp reference_buffer_size reference_ffrag false
          (list write_call) log_write wr return_datasize timeout None
        = (CSP_ERR_NONE, 10, wr') /\
        rx (conn wr') = [] /\
        user wr' = user wr ++ calls /\
        delivered_in_order 0 10 calls /\
        concat (map wc_bytes calls) = ten_bytes.
Proof.
  apply (csp_sfp_send_recv_roundtrip
           reference_buffer_size reference_ffrag false fresh_pool
           unit (blob_read ten_bytes) ten_bytes 10 4);
    reference_configuration.
Defined.

(** An empty transfer does not make the round trip: sending 0 bytes
    succeeds without queuing a packet, and the receiver, finding nothing to
    read, returns the timeout. *)
Lemma csp_sfp_roundtrip_fails_for_empty_transfer :
  let s := csp_sfp_send reference_buffer_size reference_ffrag false
             fresh_pool unit (blob_read []) 5 (idle_world tt) 0 4 in
  let r := csp_sfp_recv_fp reference_buffer_size reference_ffrag false
             (list write_call) log_write
             (receiving_world (tx (conn (snd s)))) 0 1000 None in
  fst (fst s) = Some CSP_ERR_NONE /\
  tx (conn (snd s)) = [] /\
  fst (fst r) = CSP_ERR_TIMEDOUT /\
  snd (fst r) = 0.
Proof. vm_compute. repeat split. Qed.

(** * More on the reference configuration *)

(** A packet that carries a trailer but not the fragment flag is refused. *)
Lemma csp_sfp_recv_fp_rejects_first_packet_witness :
  exists w',
    csp_sfp_recv_fp reference_buffer_size reference_ffrag false
      (list write_call) log_write (receiving_world []) 7 1000
      (Some (set_id_flags (fragment_packet ten_bytes 0 10) 0))
    = (CSP_ERR_SFP, 0, w') /\
    user w' = user (receiving_world []) /\
    conn w' = conn (receiving_world []).
Proof.
  apply (csp_sfp_recv_fp_rejects_first_packet
           reference_buffer_size reference_ffrag false
           (list write_call) log_write (receiving_world [])
           (set_id_flags (fragment_packet ten_bytes 0 10) 0) 7 1000).
  - unfold packet_in_bounds. vm_compute. split; discriminate.
  - left. reflexivity.
Defined.

Lemma csp_sfp_recv_fp_writes_contiguous_witness :
  exists calls,
    user (snd (csp_sfp_recv_fp reference_buffer_size reference_ffrag false
                 (list write_call) log_write
                 (receiving_world
                    [fragment_packet (firstn 4 ten_bytes) 0 10;
                     fragment_packet (skipn 4 ten_bytes) 4 10])
                 0 1000 None))
    = user (receiving_world
              [fragment_packet (firstn 4 ten_bytes) 0 10;
               fragment_packet (skipn 4 ten_bytes) 4 10]) ++ calls /\
    writes_contiguous reference_buffer_size 0 calls.
Proof.
  apply (csp_sfp_recv_fp_writes_contiguous
           reference_buffer_size reference_ffrag false).
  vm_compute. discriminate.
Defined.

(** One fragment of 10 bytes that announces a total of 3: the call
    succeeds with 3, and the sink was handed the 10 bytes. *)
Lemma csp_sfp_recv_fp_delivered_bytes_witness :
  let r := csp_sfp_recv_fp reference_buffer_size reference_ffrag false
             (list write_call) log_write (receiving_world []) 0 1000
             (Some (fragment_packet ten_bytes 0 3)) in
  fst (fst r) = CSP_ERR_NONE /\
  snd (fst r) = 3 /\
  exists calls,
    user (snd r) = user (receiving_world []) ++ calls /\
    snd (fst r) <= delivered_bytes calls
                < snd (fst r) + (reference_buffer_size - sizeof_sfp_header_t).
Proof.
  cbv zeta. split; [ reflexivity | ]. split; [ reflexivity | ].
  apply (csp_sfp_recv_fp_delivered_bytes
           reference_buffer_size reference_ffrag false
           (receiving_world []) 0 1000
           (Some (fragment_packet ten_bytes 0 3))).
  - vm_compute. discriminate.
  - reflexivity.
  - vm_compute. discriminate.
Defined.

Lemma csp_sfp_send_large_no_success_witness :
  fst (fst (csp_sfp_send reference_buffer_size reference_ffrag false
              fresh_pool unit (blob_read blob_64k) 1000
              (idle_world tt) 65536 100))
  <> Some CSP_ERR_NONE.
Proof.
  apply (csp_sfp_send_large_no_success
           reference_buffer_size reference_ffrag false fresh_pool
           unit (blob_read blob_64k) 1000 (idle_world tt) 65536 100); lia.
Defined.

(** A trailer [(4, 10)] appended after a payload of 4 bytes and read back. *)
Lemma csp_sfp_header_add_remove_witness :
  exists p',
    csp_sfp_header_remove reference_ffrag false
      (append_trailer false
         (mk_packet 4 reference_ffrag (ten_bytes ++ ten_bytes)) 10 4)
    = (p', Some (mk_header 4 10)) /\
    pkt_length p' = 4 /\
    payload p' = payload (mk_packet 4 reference_ffrag (ten_bytes ++ ten_bytes)).
Proof.
  apply (csp_sfp_header_add_remove reference_ffrag false
           (mk_packet 4 reference_ffrag (ten_bytes ++ ten_bytes)) 10 4);
    vm_compute; first [ discriminate | reflexivity | split; discriminate ].
Defined.

Lemma csp_sfp_send_payload_bytes_witness :
  let r := csp_sfp_send reference_buffer_size reference_ffrag false
             fresh_pool unit (blob_read ten_bytes) 10 (idle_world tt)
             10 4 in
  exists sent,
    tx (conn (snd r)) = tx (conn (idle_world tt)) ++ sent /\
    payload_bytes sent = snd (fst r) /\
    payload_bytes sent <= 10 /\
    (fst (fst r) = Some CSP_ERR_NONE -> payload_bytes sent = 10).
Proof.
  apply (csp_sfp_send_payload_bytes
           reference_buffer_size reference_ffrag false fresh_pool
           unit (blob_read ten_bytes) 10 (idle_world tt) 10 4);
    reference_configuration.
Defined.

Lemma csp_sfp_send_fragments_decodable_witness :
  exists sent,
    tx (conn (snd (csp_sfp_send reference_buffer_size reference_ffrag false
                     fresh_pool unit (blob_read ten_bytes) 10
                     (idle_world tt) 10 4)))
    = tx (conn (idle_world tt)) ++ sent /\
    Forall
      (fun p =>
         packet_in_bounds p /\
         exists p' h,
           csp_sfp_header_remove reference_ffrag false p = (p', Some h) /\
           totalsize h = 10 /\
           offset h + pkt_length p' <= 10)
      sent.
Proof.
  apply (csp_sfp_send_fragments_decodable
           reference_buffer_size reference_ffrag false fresh_pool
           unit (blob_read ten_bytes) 10 (idle_world tt) 10 4).
  - lia.
  - lia.
  - unfold reference_buffer_size, sizeof_sfp_header_t. lia.
  - unfold reference_ffrag. lia.
  - intros n p H. injection H as <-. reflexivity.
  - intros u buffer off size. apply length_store.
Defined.

(** Ten bytes asked of a source that holds six: the second read is answered
    with 2 bytes instead of 4, no third read is made and the call returns
    [CSP_ERR_SFP]. *)
Lemma csp_sfp_send_read_calls_witness :
  let r := csp_sfp_send reference_buffer_size reference_ffrag
             false fresh_pool (unit * list read_call)
             (recording_read (short_blob_read (firstn 6 ten_bytes))) 10
             (idle_world (tt, [])) 10 4 in
  fst (fst r) = Some CSP_ERR_SFP /\
  snd (user (snd r)) = [mk_read_call 0 4 4; mk_read_call 4 4 2] /\
  exists calls,
    snd (user (snd r)) = snd (user (idle_world (tt, @nil read_call))) ++ calls /\
    reads_contiguous 0 10 4 calls /\
    wrong_size_is_last calls /\
    (fst (fst r) = Some CSP_ERR_SFP <-> Exists wrong_size calls).
Proof.
  split; [ vm_compute; reflexivity | ].
  split; [ vm_compute; reflexivity | ].
  apply (csp_sfp_send_read_calls
           reference_buffer_size reference_ffrag false fresh_pool
           unit (short_blob_read (firstn 6 ten_bytes)) 10
           (idle_world (tt, [])) 10 4); lia.
Defined.

Lemma csp_sfp_header_remove_payload_witness :
  payload (fragment_packet ten_bytes 0 10)
  = payload (fst (csp_sfp_header_remove reference_ffrag false
                    (fragment_packet ten_bytes 0 10)))
    ++ trailer_bytes (fragment_packet ten_bytes 0 10).
Proof.
  apply (csp_sfp_header_remove_payload reference_ffrag false
           (fragment_packet ten_bytes 0 10)).
  - vm_compute. discriminate.
  - vm_compute. split; discriminate.
Defined.

(** A transfer of 10 bytes in two fragments, with a stray packet queued
    behind it: the call succeeds and the stray packet is still pending. *)
Lemma csp_sfp_recv_fp_reads_no_further_witness :
  csp_sfp_recv_fp reference_buffer_size reference_ffrag false
    (list write_call) log_write
    (receiving_world
       ([fragment_packet (firstn 4 ten_bytes) 0 10;
         fragment_packet (skipn 4 ten_bytes) 4 10]
        ++ [fragment_packet ten_bytes 0 10]))
    0 1000 None
  = (CSP_ERR_NONE, 10,
     mk_world (mk_conn 0 [] [fragment_packet ten_bytes 0 10]) 0
       (map (fun p => fst (csp_sfp_header_remove reference_ffrag false p))
          [fragment_packet (firstn 4 ten_bytes) 0 10;
           fragment_packet (skipn 4 ten_bytes) 4 10])
       [mk_write_call (firstn 4 ten_bytes) 0 4 10;
        mk_write_call (skipn 4 ten_bytes) 4 6 10]).
Proof.
  refine (csp_sfp_recv_fp_reads_no_further
            reference_buffer_size reference_ffrag false
            (list write_call) log_write
            (receiving_world
               [fragment_packet (firstn 4 ten_bytes) 0 10;
                fragment_packet (skipn 4 ten_bytes) 4 10])
            [fragment_packet ten_bytes 0 10] 0 1000 None _).
  vm_compute. discriminate.
Defined.

